(** * ol/color.js: colour strings, colour arrays and the parse cache

    A shallow embedding of [src/ol/color.js].

    - A Number is a binary64 float of the kernel, so the arithmetic of the
      module ([+ 0.5], [| 0], [<< 4], [/ 255], the comparisons inside
      [Math.min] and [Math.max]) is evaluated as the language evaluates it.
    - A string is a [string] of 8-bit code units.
    - An array of Numbers is a list; reading past its end gives [undefined].
    - The object used as the parse cache is the list of its own properties in
      insertion order, which is the order in which [for (key in cache)]
      visits string keys that are not array indices (no string that parses
      is an array index).  Its prototype is [Object.prototype], from which
      the module reads one name, [hasOwnProperty]: an own property of that
      name shadows the inherited method.  An assignment [cache[s] = color]
      creates or replaces an own property for every string that parses
      ([__proto__], which would not, is no such string).
    - [fromNamed] asks the document for the computed colour of a name; it is
      taken as a function from the name to the computed string.
    - An exception is a value of type [exn], returned in [Throw]; the state
      that a throwing call leaves is returned with it.
    - The parser and the cache also return the calls they make to the
      resolver and to the parser, as a list of [event]s. *)

From Stdlib Require Import ZArith Uint63 Floats String Ascii List Bool Lia.
Import ListNotations.

Open Scope string_scope.
Open Scope Z_scope.

(** ** JavaScript strings *)

Module JsString.

Fixpoint take (n : nat) (s : string) : string :=
  match n, s with
  | S n', String c s' => String c (take n' s')
  | _, _ => EmptyString
  end.

Fixpoint drop (n : nat) (s : string) : string :=
  match n, s with
  | S n', String _ s' => drop n' s'
  | _, _ => s
  end.

Definition length (s : string) : Z := Z.of_nat (String.length s).

(** An index argument relative to the end when negative, clipped to the
    string, as [substr] and [slice] read their arguments. *)
Definition relative (size i : Z) : Z :=
  if i <? 0 then Z.max (size + i) 0 else Z.min i size.

(** [s.substr(start, len)] *)
Definition substr (s : string) (start len : Z) : string :=
  let size := length s in
  let from := relative size start in
  let span := Z.min (Z.max len 0) (size - from) in
  take (Z.to_nat span) (drop (Z.to_nat from) s).

(** [s.slice(start, end)] *)
Definition slice (s : string) (start stop : Z) : string :=
  let size := length s in
  let from := relative size start in
  let to := relative size stop in
  let span := Z.max (to - from) 0 in
  take (Z.to_nat span) (drop (Z.to_nat from) s).

(** [s.indexOf(pat)]: the first position at which [pat] occurs, or -1. *)
Definition indexOf (s pat : string) : Z :=
  match String.index 0 pat s with
  | Some n => Z.of_nat n
  | None => -1
  end.

(** [s.split(sep)] for a separator of one code unit. *)
Fixpoint split (sep : ascii) (s : string) : list string :=
  match s with
  | EmptyString => [EmptyString]
  | String c s' =>
      if Ascii.eqb c sep then EmptyString :: split sep s'
      else match split sep s' with
           | piece :: rest => String c piece :: rest
           | [] => [String c EmptyString]
           end
  end.

Definition isEmpty (s : string) : bool :=
  match s with EmptyString => true | String _ _ => false end.

Fixpoint all (p : ascii -> bool) (s : string) : bool :=
  match s with
  | EmptyString => true
  | String c s' => p c && all p s'
  end.

End JsString.

(** ** Characters *)

Definition in_range (lo hi c : ascii) : bool :=
  (nat_of_ascii lo <=? nat_of_ascii c)%nat && (nat_of_ascii c <=? nat_of_ascii hi)%nat.

Definition to_upper (c : ascii) : ascii :=
  if in_range "a" "z" c then ascii_of_nat (nat_of_ascii c - 32) else c.

Definition to_lower (c : ascii) : ascii :=
  if in_range "A" "Z" c then ascii_of_nat (nat_of_ascii c + 32) else c.

Definition is_digit (c : ascii) : bool := in_range "0" "9" c.

Definition is_alpha (c : ascii) : bool :=
  in_range "a" "z" c || in_range "A" "Z" c.

Definition is_hex_digit (c : ascii) : bool :=
  is_digit c || in_range "a" "f" c || in_range "A" "F" c.

(** ** Regular expressions

    The fragment of the pattern language that the two patterns of the module
    use, with the backtracking matcher in continuation-passing style.  Both
    patterns are anchored with [^] and [$] and carry no [m] flag, so [exec]
    returns a match exactly when the pattern spans the whole input. *)

Module RegExp.

Inductive pattern : Type :=
| Eps                                         (* the empty pattern *)
| Chr (c : ascii)                              (* a literal character *)
| Class (ranges : list (ascii * ascii))        (* [lo-hi...] *)
| Seq (a b : pattern)
| Alt (a b : pattern)
| Star (a : pattern).                         (* a* *)

Fixpoint times (n : nat) (a : pattern) : pattern :=
  match n with
  | O => Eps
  | S n' => Seq a (times n' a)
  end.

Fixpoint upto (n : nat) (a : pattern) : pattern :=
  match n with
  | O => Eps
  | S n' => Alt (Seq a (upto n' a)) Eps
  end.

(** [a{lo,hi}] *)
Definition Quant (a : pattern) (lo hi : nat) : pattern :=
  Seq (times lo a) (upto (hi - lo) a).

(** A parenthesised group, capturing or not, matches what its body does. *)
Definition Group (a : pattern) : pattern := a.

Record t : Type := { source : pattern; ignoreCase : bool }.

(** With the [i] flag two characters match when their canonical forms
    agree; for the ASCII characters of the two patterns that is equality
    up to letter case. *)
Definition char_match (i : bool) (c x : ascii) : bool :=
  Ascii.eqb c x || (i && Ascii.eqb (to_upper c) (to_upper x)).

Definition class_match (i : bool) (ranges : list (ascii * ascii)) (x : ascii) : bool :=
  existsb (fun r : ascii * ascii =>
             let (lo, hi) := r in
             in_range lo hi x
             || (i && (in_range lo hi (to_upper x) || in_range lo hi (to_lower x))))
          ranges.

Arguments char_match : simpl never.
Arguments class_match : simpl never.

Fixpoint m (i : bool) (p : pattern) : string -> (string -> bool) -> bool :=
  match p with
  | Eps => fun s k => k s
  | Chr c => fun s k =>
      match s with
      | String x s' => char_match i c x && k s'
      | EmptyString => false
      end
  | Class ranges => fun s k =>
      match s with
      | String x s' => class_match i ranges x && k s'
      | EmptyString => false
      end
  | Seq a b => fun s k => m i a s (fun s' => m i b s' k)
  | Alt a b => fun s k => m i a s k || m i b s k
  | Star a => fun s k =>
      (fix star (fuel : nat) (s : string) {struct fuel} : bool :=
         match fuel with
         | O => k s
         | S fuel' =>
             m i a s (fun s' => (String.length s' <? String.length s)%nat && star fuel' s')
             || k s
         end) (String.length s) s
  end.

(** Whether [re.exec(s)] returns a match, for a pattern written [^...$]. *)
Definition exec (re : t) (s : string) : bool :=
  m (ignoreCase re) (source re) s JsString.isEmpty.

End RegExp.

Import RegExp.

Arguments char_match : simpl never.
Arguments class_match : simpl never.

(** [/^#(?:[0-9a-f]{3,4}){1,2}$/i] *)
Definition HEX_COLOR_RE_ : RegExp.t :=
  {| source := Seq (Chr "#"%char) (Quant (Group (Quant (Class [("0", "9"); ("a", "f")]%char) 3 4)) 1 2);
     ignoreCase := true |}.

(** The pattern [^(...)$] with flag [i], the group holding the class [[a-z]]
    under a star. *)
Definition NAMED_COLOR_RE_ : RegExp.t :=
  {| source := Group (Star (Class [("a", "z")]%char));
     ignoreCase := true |}.

(** ** JavaScript numbers

    A Number is a binary64 float; the operations below follow ECMA-262:
    [ToInt32], the bitwise operators that go through it, [Math.max] and
    [Math.min], the conversion of a string to a Number ([Number(s)] and
    [parseInt]) and of a Number to a string. *)

Module JsNumber.

Definition number : Type := float.

(** The Number of an integer below 2^63 in magnitude. *)
Definition of_int (z : Z) : number :=
  if z <? 0 then (- of_uint63 (Uint63.of_Z (- z)))%float
  else of_uint63 (Uint63.of_Z z).

Definition wrap32 (z : Z) : Z :=
  let r := z mod 2 ^ 32 in
  if r <? 2 ^ 31 then r else r - 2 ^ 32.

(** [ToInt32]: NaN, the zeros and the infinities go to 0, any other value
    is truncated toward zero and wrapped into [-2^31, 2^31). *)
Definition ToInt32 (x : number) : Z :=
  match Prim2SF x with
  | S754_finite s m e =>
      let magnitude := Z.shiftl (Zpos m) e in
      wrap32 (if s then - magnitude else magnitude)
  | _ => 0
  end.

(** [x | 0] *)
Definition bitor0 (x : number) : number := of_int (ToInt32 x).

(** [x << k] *)
Definition shl (x : number) (k : Z) : number :=
  of_int (wrap32 (Z.shiftl (ToInt32 x) (k mod 32))).

(** [Math.max(x, y)]: NaN when either is NaN, and +0 is above -0. *)
Definition Math_max (x y : number) : number :=
  if is_nan x || is_nan y then nan
  else if (x <? y)%float then y
  else if (y <? x)%float then x
  else if get_sign y then x else y.

(** [Math.min(x, y)]: NaN when either is NaN, and -0 is below +0. *)
Definition Math_min (x y : number) : number :=
  if is_nan x || is_nan y then nan
  else if (x <? y)%float then x
  else if (y <? x)%float then y
  else if get_sign y then y else x.

Arguments Math_max (x y)%_float.
Arguments Math_min (x y)%_float.

(** [x != y] on Numbers *)
Definition neq (x y : number) : bool := negb (x =? y)%float.

(** *** From decimal digits to a Number *)

(** The Number nearest to [mant * 10^e10] ([mant >= 0]), ties to even,
    with the sign [neg]. *)
Definition make_float (neg : bool) (mant e10 : Z) : number :=
  let magnitude :=
    match mant with
    | Zpos p =>
        if 0 <=? e10
        then SF2Prim (binary_normalize prec emax (mant * 10 ^ e10) 0 false)
        else SF2Prim (SFdiv prec emax (S754_finite false p 0)
                            (S754_finite false (Z.to_pos (10 ^ (- e10))) 0))
    | _ => PrimFloat.zero
    end in
  if neg then (- magnitude)%float else magnitude.

Definition digit_value (c : ascii) : Z :=
  if is_digit c then Z.of_nat (nat_of_ascii c) - 48
  else if in_range "a" "z" c then Z.of_nat (nat_of_ascii c) - 87
  else if in_range "A" "Z" c then Z.of_nat (nat_of_ascii c) - 55
  else 36.

Definition is_radix_digit (radix : Z) (c : ascii) : bool :=
  digit_value c <? radix.

(** The longest prefix of digits in [radix]: its value, the number of
    digits read and the rest of the string. *)
Fixpoint read_digits (radix : Z) (s : string) (acc : Z) (count : Z) : Z * Z * string :=
  match s with
  | String c s' =>
      if is_radix_digit radix c
      then read_digits radix s' (acc * radix + digit_value c) (count + 1)
      else (acc, count, s)
  | EmptyString => (acc, count, s)
  end.

(** White space and line terminators among the 8-bit code units. *)
Definition is_space (c : ascii) : bool :=
  let n := nat_of_ascii c in
  ((9 <=? n) && (n <=? 13) || (n =? 32) || (n =? 160))%nat.

Fixpoint trim_start (s : string) : string :=
  match s with
  | String c s' => if is_space c then trim_start s' else s
  | EmptyString => s
  end.

Fixpoint trim_end (s : string) : string :=
  match s with
  | String c s' =>
      match trim_end s' with
      | EmptyString => if is_space c then EmptyString else String c EmptyString
      | rest => String c rest
      end
  | EmptyString => s
  end.

Definition read_sign (s : string) : bool * string :=
  match s with
  | String "-" s' => (true, s')
  | String "+" s' => (false, s')
  | _ => (false, s)
  end.

(** The exponent part of a decimal literal: nothing, or [e] or [E], an
    optional sign and at least one digit, up to the end of the string. *)
Definition read_exponent (s : string) : option Z :=
  match s with
  | EmptyString => Some 0
  | String c s' =>
      if Ascii.eqb c "e" || Ascii.eqb c "E" then
        let (neg, s'') := read_sign s' in
        match read_digits 10 s'' 0 0 with
        | (e, count, EmptyString) =>
            if 0 <? count then Some (if neg then - e else e) else None
        | _ => None
        end
      else None
  end.

(** An unsigned decimal literal: digits, an optional fraction and an
    optional exponent, with a digit before or after the point. *)
Definition read_decimal (neg : bool) (s : string) : number :=
  let '(int_part, n1, s1) := read_digits 10 s 0 0 in
  let '(mant, n2, s2) :=
    match s1 with
    | String "." s1' =>
        let '(m, n, rest) := read_digits 10 s1' int_part 0 in (m, n, rest)
    | _ => (int_part, 0, s1)
    end in
  if 0 <? n1 + n2 then
    match read_exponent s2 with
    | Some e => make_float neg mant (e - n2)
    | None => nan
    end
  else nan.

Definition read_radix (radix : Z) (s : string) : number :=
  match read_digits radix s 0 0 with
  | (v, count, EmptyString) => if 0 <? count then make_float false v 0 else nan
  | _ => nan
  end.

(** [Number(s)]: the value of the string as a numeric literal between
    optional white space, 0 for the empty string, NaN for anything else. *)
Definition Number (s : string) : number :=
  let s := trim_end (trim_start s) in
  match s with
  | EmptyString => PrimFloat.zero
  | String "0" (String "x" s') | String "0" (String "X" s') => read_radix 16 s'
  | String "0" (String "o" s') | String "0" (String "O" s') => read_radix 8 s'
  | String "0" (String "b" s') | String "0" (String "B" s') => read_radix 2 s'
  | _ =>
      let (neg, body) := read_sign s in
      if String.eqb body "Infinity"
      then (if neg then neg_infinity else infinity)
      else read_decimal neg body
  end.

(** [parseInt(s, radix)] for a radix from 2 to 36. *)
Definition parseInt (s : string) (radix : Z) : number :=
  let (neg, body) := read_sign (trim_start s) in
  let body :=
    if radix =? 16 then
      match body with
      | String "0" (String "x" s') | String "0" (String "X" s') => s'
      | _ => body
      end
    else body in
  let '(v, count, _) := read_digits radix body 0 0 in
  if 0 <? count then make_float neg v 0 else nan.

(** *** From a Number to its decimal string *)

Definition digit_char (d : Z) : ascii := ascii_of_nat (Z.to_nat (48 + d)).

Fixpoint digits_loop (fuel : nat) (z : Z) (acc : string) : string :=
  match fuel with
  | O => acc
  | S fuel' =>
      let acc' := String (digit_char (z mod 10)) acc in
      if z <? 10 then acc' else digits_loop fuel' (z / 10) acc'
  end.

(** The decimal digits of a natural number. *)
Definition digits (z : Z) : string :=
  digits_loop (S (Z.to_nat (Z.log2 z))) z EmptyString.

Fixpoint zeros (n : nat) : string :=
  match n with
  | O => EmptyString
  | S n' => String "0" (zeros n')
  end.

(** [num / den < 10^n] *)
Definition below_pow10 (num den n : Z) : bool :=
  if 0 <=? n then num <? 10 ^ n * den else num * 10 ^ (- n) <? den.

(** The least [n] from [n0] on with [num / den < 10^n]. *)
Fixpoint magnitude_loop (fuel : nat) (num den n0 : Z) : Z :=
  match fuel with
  | O => n0
  | S fuel' =>
      if below_pow10 num den n0 then n0
      else magnitude_loop fuel' num den (n0 + 1)
  end.

(** A lower estimate of the number of integer digits of [num / den],
    from the binary logarithms, at most a few units below it. *)
Definition magnitude_estimate (num den : Z) : Z :=
  let l := Z.log2 num - Z.log2 den - 1 in
  (if 0 <=? l then l * 30102 / 100000 else l * 30103 / 100000) - 1.

(** The digits [s] and the exponent [n] of [x = num / den] at [k]
    significant digits, when some [s * 10^(n-k)] converts back to [x]. *)
Definition shortest_at (x : number) (num den n k : Z) : option (Z * Z) :=
  let shift := k - n in
  let p := if 0 <=? shift then num * 10 ^ shift else num in
  let q := if 0 <=? shift then den else den * 10 ^ (- shift) in
  let lo := p / q in
  let rem := p mod q in
  let hi := lo + 1 in
  let back s n := PrimFloat.Leibniz.eqb (make_float false s (n - k)) x in
  let lo_ok := back lo n in
  let hi_cand := if hi =? 10 ^ k then (10 ^ (k - 1), n + 1) else (hi, n) in
  let hi_ok := negb (rem =? 0) && back (fst hi_cand) (snd hi_cand) in
  let prefer_hi := (q <? 2 * rem) || ((q =? 2 * rem) && Z.odd lo) in
  if lo_ok && hi_ok then Some (if prefer_hi then hi_cand else (lo, n))
  else if lo_ok then Some (lo, n)
  else if hi_ok then Some hi_cand
  else None.

Fixpoint shortest_loop (fuel : nat) (x : number) (num den n k : Z) : Z * Z * Z :=
  match fuel with
  | O => (num * 10 ^ (Z.max (k - n) 0) / (den * 10 ^ (Z.max (n - k) 0)), n, k)
  | S fuel' =>
      match shortest_at x num den n k with
      | Some (s, n') => (s, n', k)
      | None => shortest_loop fuel' x num den n (k + 1)
      end
  end.

(** The decimal string of [s * 10^(n-k)], [s] having [k] digits. *)
Definition layout (s n k : Z) : string :=
  let ds := digits s in
  if (k <=? n) && (n <=? 21) then
    ds ++ zeros (Z.to_nat (n - k))
  else if (0 <? n) && (n <=? 21) then
    JsString.take (Z.to_nat n) ds ++ "." ++ JsString.drop (Z.to_nat n) ds
  else if (-6 <? n) && (n <=? 0) then
    "0." ++ zeros (Z.to_nat (- n)) ++ ds
  else
    let e := n - 1 in
    let exponent := (if e <? 0 then "-" else "+") ++ digits (Z.abs e) in
    if k =? 1 then ds ++ "e" ++ exponent
    else JsString.take 1 ds ++ "." ++ JsString.drop 1 ds ++ "e" ++ exponent.

(** The string of a positive finite Number [x = m * 2^e = num / den]: the
    decimal of the fewest digits that converts back to [x].  The search ends
    at the latest at the exact decimal expansion of [x], which has
    [n + log2 den] digits. *)
Definition positive_to_string (x : number) (m : positive) (e : Z) : string :=
  let num := if 0 <=? e then Z.shiftl (Zpos m) e else Zpos m in
  let den := if 0 <=? e then 1 else 2 ^ (- e) in
  let n := magnitude_loop 8 num den (magnitude_estimate num den) in
  let last := Z.max 1 (n + Z.log2 den) in
  let '(s, n', k) := shortest_loop (Z.to_nat last) x num den n 1 in
  layout s n' k.

(** [String(x)], which is also how [+] appends a Number to a string. *)
Definition numberToString (x : number) : string :=
  match Prim2SF x with
  | S754_nan => "NaN"
  | S754_zero _ => "0"
  | S754_infinity s => if s then "-Infinity" else "Infinity"
  | S754_finite s m e =>
      (if s then "-" else "") ++ positive_to_string (abs x) m e
  end.

End JsNumber.

Import JsNumber.

Arguments Math_max (x y)%_float.
Arguments Math_min (x y)%_float.
Arguments ToInt32 x%_float.
Arguments bitor0 x%_float.
Arguments numberToString x%_float.
Arguments shl x%_float k%_Z.

(** ** JavaScript arrays of Numbers *)

Module JsArray.

(** [a[i]] where the value is used as a Number: an index past the end
    reads [undefined], which [+], [|] and [Math.max] convert to NaN. *)
Definition at_ (a : list number) (i : nat) : number := nth i a nan.

(** [a[i] = v]: replaces the element, or extends the array (the indices
    in between, if any, are holes and read like missing elements). *)
Fixpoint set (a : list number) (i : nat) (v : number) : list number :=
  match i, a with
  | O, [] => [v]
  | O, _ :: rest => v :: rest
  | S i', [] => nan :: set [] i' v
  | S i', x :: rest => x :: set rest i' v
  end.

End JsArray.

(** ** ol/math.js *)

(** Modelled from the spec: [clamp] of [ol/math.js], which the module imports
    and which is not among its sources; it brings [value] into the closed range
    from [min] to [max], as [Math.min(Math.max(value, min), max)] does. *)
Definition clamp (value min max : number) : number :=
  Math_min (Math_max value min) max.

Arguments clamp (value min max)%_float.

(** ** ol/color.js *)

(** [ol.Color]: an array of Numbers, red, green, blue in 0..255 and alpha
    in 0..1. *)
Definition Color : Type := list number.

(** The argument of [asString] and [asArray]: a colour array or a string. *)
Inductive ColorLike : Type :=
| OfString (s : string)
| OfArray (c : Color).

(** What the module throws: the error of [assert(false, code)], and the
    TypeError of a call of a value that is not a function. *)
Inductive exn : Type :=
| AssertionError (code : Z)
| TypeError.

Inductive result (A : Type) : Type :=
| Ok (a : A)
| Throw (e : exn).

Arguments Ok {A} a.
Arguments Throw {A} e.

(** The calls that a run records: the named-colour resolver invoked on a
    name, and the parser invoked by the cache on a string. *)
Inductive event : Type :=
| Resolve (name : string)
| Parse (s : string).

Definition normalize (color : Color) (opt_color : option Color) : Color :=
  let result := match opt_color with Some c => c | None => [] end in
  let result := JsArray.set result 0 (clamp (bitor0 (JsArray.at_ color 0 + 0.5)%float) 0 255) in
  let result := JsArray.set result 1 (clamp (bitor0 (JsArray.at_ color 1 + 0.5)%float) 0 255) in
  let result := JsArray.set result 2 (clamp (bitor0 (JsArray.at_ color 2 + 0.5)%float) 0 255) in
  let result := JsArray.set result 3 (clamp (JsArray.at_ color 3) 0 1) in
  result.

Definition toString (color : Color) : string :=
  let r := JsArray.at_ color 0 in
  let r := if neq r (bitor0 r) then bitor0 (r + 0.5)%float else r in
  let g := JsArray.at_ color 1 in
  let g := if neq g (bitor0 g) then bitor0 (g + 0.5)%float else g in
  let b := JsArray.at_ color 2 in
  let b := if neq b (bitor0 b) then bitor0 (b + 0.5)%float else b in
  let a := match nth_error color 3 with None => 1%float | Some a => a end in
  "rgba(" ++ numberToString r ++ "," ++ numberToString g ++ ","
          ++ numberToString b ++ "," ++ numberToString a ++ ")".

Definition asString (color : ColorLike) : string :=
  match color with
  | OfString s => s
  | OfArray c => toString c
  end.

(** The hex branch of [fromStringInternal_]. *)
Definition fromHex_ (s : string) : Color :=
  let n := JsString.length s - 1 in
  let d := if n <=? 4 then 1 else 2 in
  let hasAlpha := (n =? 4) || (n =? 8) in
  let r := parseInt (JsString.substr s (1 + 0 * d) d) 16 in
  let g := parseInt (JsString.substr s (1 + 1 * d) d) 16 in
  let b := parseInt (JsString.substr s (1 + 2 * d) d) 16 in
  let a := if hasAlpha then parseInt (JsString.substr s (1 + 3 * d) d) 16 else 255%float in
  let '(r, g, b, a) :=
    if d =? 1 then
      ((shl r 4 + r)%float, (shl g 4 + g)%float, (shl b 4 + b)%float,
       if hasAlpha then (shl a 4 + a)%float else a)
    else (r, g, b, a) in
  [r; g; b; (a / 255)%float].

(** The chain of branches of [fromStringInternal_], on the string as it is
    after the named-colour step. *)
Definition fromResolved_ (s : string) : result Color :=
  if RegExp.exec HEX_COLOR_RE_ s then
    Ok (fromHex_ s)
  else if JsString.indexOf s "rgba(" =? 0 then
    let parts := map Number (JsString.split "," (JsString.slice s 5 (-1))) in
    Ok (normalize parts None)
  else if JsString.indexOf s "rgb(" =? 0 then
    let parts := map Number (JsString.split "," (JsString.slice s 4 (-1))) in
    let parts := (parts ++ [1%float])%list in
    Ok (normalize parts None)
  else
    Throw (AssertionError 14).

(** The cache object and its entry counter. *)
Record State : Type := { cache : list (string * Color); cacheSize : Z }.

Definition MAX_CACHE_SIZE : Z := 1024.

Definition empty : State := {| cache := []; cacheSize := 0 |}.

Module JsObject.

(** The own property [key] of [o], if it has one. *)
Fixpoint get (o : list (string * Color)) (key : string) : option Color :=
  match o with
  | [] => None
  | (k, v) :: rest => if String.eqb k key then Some v else get rest key
  end.

(** [o.hasOwnProperty(key)] on an object that inherits from
    [Object.prototype], with [o[key]] where the call returns true.  The
    method is looked up on [o] itself first: once [o] has an own property
    named [hasOwnProperty], which here holds an array, the call is a call of
    that array and throws a TypeError. *)
Definition hasOwnProperty (o : list (string * Color)) (key : string) : result (option Color) :=
  match get o "hasOwnProperty" with
  | Some _ => Throw TypeError
  | None => Ok (get o key)
  end.

(** [o[key] = v]: an existing property keeps its place, a new one comes
    last in the enumeration order. *)
Fixpoint set (o : list (string * Color)) (key : string) (v : Color) : list (string * Color) :=
  match o with
  | [] => [(key, v)]
  | (k, w) :: rest =>
      if String.eqb k key then (k, v) :: rest else (k, w) :: set rest key v
  end.

(** [delete o[key]] *)
Definition delete (o : list (string * Color)) (key : string) : list (string * Color) :=
  filter (fun kv => negb (String.eqb (fst kv) key)) o.

(** The keys that [for (key in o)] visits, in order. *)
Definition keys (o : list (string * Color)) : list string := map fst o.

End JsObject.

(** The eviction loop: [for (key in cache) if ((i++ & 3) === 0) {...}]. *)
Fixpoint evict_ (keys : list string) (i : Z) (st : State) : State :=
  match keys with
  | [] => st
  | key :: rest =>
      if Z.land i 3 =? 0
      then evict_ rest (i + 1)
                  {| cache := JsObject.delete (cache st) key;
                     cacheSize := cacheSize st - 1 |}
      else evict_ rest (i + 1) st
  end.

Section Resolver.

(** [fromNamed]: the string that the document computes for the colour
    name, taken as a function of the name. *)
Variable fromNamed : string -> string.

Definition fromStringInternal_ (s : string) : list event * result Color :=
  if RegExp.exec NAMED_COLOR_RE_ s
  then ([Resolve s], fromResolved_ (fromNamed s))
  else ([], fromResolved_ s).

Definition fromString (st : State) (s : string) : list event * result Color * State :=
  match JsObject.hasOwnProperty (cache st) s with
  | Throw e => ([], Throw e, st)
  | Ok (Some color) => ([], Ok color, st)
  | Ok None =>
      let st :=
        if MAX_CACHE_SIZE <=? cacheSize st
        then evict_ (JsObject.keys (cache st)) 0 st
        else st in
      match fromStringInternal_ s with
      | (called, Ok color) =>
          (Parse s :: called, Ok color,
           {| cache := JsObject.set (cache st) s color;
              cacheSize := cacheSize st + 1 |})
      | (called, Throw e) => (Parse s :: called, Throw e, st)
      end
  end.

Definition asArray (st : State) (color : ColorLike) : list event * result Color * State :=
  match color with
  | OfArray c => ([], Ok c, st)
  | OfString s => fromString st s
  end.

(** The state after a sequence of lookups, whatever each returned or
    threw. *)
Fixpoint lookups (st : State) (ss : list string) : State :=
  match ss with
  | [] => st
  | s :: rest => lookups (snd (fromString st s)) rest
  end.

End Resolver.

(** ** Definitions that the statements below use *)

(** The shape that the hex pattern accepts: [#] and then 3, 4, 6, 7 or 8
    hex digits. *)
Definition hex_shape (s : string) : bool :=
  match s with
  | String "#" ds =>
      JsString.all is_hex_digit ds
      && existsb (Nat.eqb (String.length ds)) [3; 4; 6; 7; 8]%nat
  | _ => false
  end.

(** The binary64 form of a positive integer of fewer than 53 bits, with the
    sign [s]: the mantissa shifted up to 53 bits. *)
Definition sf_of_pos (s : bool) (p : positive) : spec_float :=
  S754_finite s (Pos.iter xO p (Z.to_pos (53 - Zpos (digits2_pos p))))
              (Zpos (digits2_pos p) - 53).

(** The integers from 0 to 255. *)
Definition bytes : list Z := map Z.of_nat (seq 0 256).

(** What [normalize] stores in each of the first three fields. *)
Definition channel (x : number) : number := clamp (bitor0 (x + 0.5)) 0 255.

Arguments channel x%_float.

(** The characters other than the separator [sep]. *)
Definition other_than (sep c : ascii) : bool := negb (Ascii.eqb c sep).

(** The value of a short-hex digit: [(v << 4) + v] on what [parseInt]
    reads from it. *)
Definition expand (digit : string) : number :=
  let v := parseInt digit 16 in (shl v 4 + v)%float.

(** What is left of an enumeration whose first entry has position [i] once
    the entries at the positions divisible by 4 are gone. *)
Fixpoint kept_from {A : Type} (i : nat) (l : list A) : list A :=
  match l with
  | [] => []
  | x :: rest =>
      if (i mod 4 =? 0)%nat then kept_from (S i) rest
      else x :: kept_from (S i) rest
  end.

(** The entries of [l] at the positions 0, 4, 8, ... removed. *)
Definition without_every_fourth {A : Type} (l : list A) : list A :=
  map snd (filter (fun ix : nat * A => negb (fst ix mod 4 =? 0)%nat)
                  (combine (seq 0 (length l)) l)).

(** The three parts of what a lookup returns: the calls it made, its
    result, and the state it leaves. *)
Definition calls (r : list event * result Color * State) : list event := fst (fst r).

Definition outcome (r : list event * result Color * State) : result Color := snd (fst r).

Definition after (r : list event * result Color * State) : State := snd r.

(** What holds of the cache between lookups: the counter is the number of
    entries, no key occurs twice, the counter is within the maximum, and
    every entry holds what the parser returns for its key. *)
Record consistent (fromNamed : string -> string) (st : State) : Prop := {
  counted : cacheSize st = Z.of_nat (length (cache st));
  distinct : NoDup (JsObject.keys (cache st));
  bounded : cacheSize st <= MAX_CACHE_SIZE;
  parsed : forall k v, In (k, v) (cache st) -> snd (fromStringInternal_ fromNamed k) = Ok v
}.

(** The hex digit of a value below 16. *)
Definition hex_char (d : nat) : ascii :=
  nth d (list_ascii_of_string "0123456789abcdef") "0"%char.

(** [#] and the three hex digits of [i]. *)
Definition sample (i : nat) : string :=
  String "#" (String (hex_char (i / 256))
                (String (hex_char (i / 16 mod 16)) (String (hex_char (i mod 16)) ""))).

(** The 1024 strings from [#000] to [#3ff]. *)
Definition samples : list string := map sample (seq 0 1024).

(** The state in which [fromString] parses a string that is not cached. *)
Definition made_room (st : State) : State :=
  if MAX_CACHE_SIZE <=? cacheSize st
  then evict_ (JsObject.keys (cache st)) 0 st
  else st.

(** The value of a string of decimal digits read after the value [acc]. *)
Fixpoint decimal_value (ds : string) (acc : Z) : Z :=
  match ds with
  | EmptyString => acc
  | String c ds' => decimal_value ds' (acc * 10 + digit_value c)
  end.

(** Whether the reading of decimal digits stops at the start of [s]. *)
Definition stops (s : string) : bool :=
  match s with
  | EmptyString => true
  | String c _ => negb (is_radix_digit 10 c)
  end.

Definition not_space (c : ascii) : bool := negb (is_space c).

(** The characters that follow the first digit of a decimal literal. *)
Definition literal_char (c : ascii) : bool :=
  is_digit c || Ascii.eqb c "." || Ascii.eqb c "e".

(** Whether [s] starts like an unsigned decimal literal: a digit, and then
    nothing or a digit, a point or an [e]. *)
Definition unsigned_start (s : string) : bool :=
  match s with
  | String c1 rest =>
      is_digit c1 && match rest with
                     | String c2 _ => literal_char c2
                     | EmptyString => true
                     end
  | EmptyString => false
  end.

(** The binary logarithms [l] that [magnitude_estimate] meets on a Number
    with a negative binary exponent. *)
Definition estimate_range : list Z := map (fun i => Z.of_nat i - 1076) (seq 0 1128).

(** The powers of ten [acc * 10^0], ..., [acc * 10^(n-1)]. *)
Fixpoint powers_of_ten (n : nat) (acc : Z) : list Z :=
  match n with
  | O => []
  | S n' => acc :: powers_of_ten n' (10 * acc)
  end.

(** The estimate made from [l], where [2^(l+1) <= x < 2^(l+2)], is at most
    one above the decimal exponent of [x] and at most 7 below it; both sides
    are scaled by [2^1075] and by [10^326], and the powers of ten are read
    from the table [T]. *)
Definition estimate_ok (T : list Z) (l : Z) : bool :=
  let est := (if 0 <=? l then l * 30102 / 100000 else l * 30103 / 100000) - 1 in
  let pow10 k := nth (Z.to_nat k) T 0 in
  (Z.shiftl (pow10 (est + 325)) 1075 <=? Z.shiftl (pow10 326) (l + 1076))
  && (Z.shiftl (pow10 326) (l + 1077) <=? Z.shiftl (pow10 (est + 333)) 1075).

(** The 22 characters that are hex digits. *)
Definition hex_digit_chars : list ascii :=
  list_ascii_of_string "0123456789abcdefABCDEF".

(** The value of two hex digits. *)
Definition byte_of (hi lo : ascii) : Z := digit_value hi * 16 + digit_value lo.

(** The value of one hex digit written twice. *)
Definition doubled (c : ascii) : Z := byte_of c c.

(** The colour that the digits after [#] stand for: one digit per channel
    when there are 3 or 4, two per channel when there are 6, 7 or 8 (the
    seventh of 7 is not read), alpha from the fourth digit or the fourth
    pair, and 1 without one. *)
Definition hex_colour (ds : string) : option Color :=
  match list_ascii_of_string ds with
  | [r; g; b] =>
      Some [of_int (doubled r); of_int (doubled g); of_int (doubled b); 1%float]
  | [r; g; b; a] =>
      Some [of_int (doubled r); of_int (doubled g); of_int (doubled b);
            (of_int (doubled a) / 255)%float]
  | [r1; r2; g1; g2; b1; b2] | [r1; r2; g1; g2; b1; b2; _] =>
      Some [of_int (byte_of r1 r2); of_int (byte_of g1 g2); of_int (byte_of b1 b2);
            1%float]
  | [r1; r2; g1; g2; b1; b2; a1; a2] =>
      Some [of_int (byte_of r1 r2); of_int (byte_of g1 g2); of_int (byte_of b1 b2);
            (of_int (byte_of a1 a2) / 255)%float]
  | _ => None
  end.

(** [s.toLowerCase()] and [s.toUpperCase()] on ASCII. *)
Fixpoint lower (s : string) : string :=
  match s with
  | EmptyString => EmptyString
  | String c s' => String (to_lower c) (lower s')
  end.

Fixpoint upper (s : string) : string :=
  match s with
  | EmptyString => EmptyString
  | String c s' => String (to_upper c) (upper s')
  end.

(** A colour as the parser returns it: three integers from 0 to 255 and
    an alpha that is NaN or lies between 0 and 1 and is not the negative
    zero. *)
Definition in_gamut (c : Color) : Prop :=
  exists (r g b : Z) (a : number),
    c = [of_int r; of_int g; of_int b; a]
    /\ 0 <= r <= 255 /\ 0 <= g <= 255 /\ 0 <= b <= 255
    /\ (is_nan a = true
        \/ ((0 <=? a)%float = true /\ (a <=? 1)%float = true /\ a <> (-0)%float)).

(** The channel that [toString] prints: the field itself when it equals its
    32-bit integer, the field rounded with [(x + 0.5) | 0] otherwise. *)
Definition printed (x : number) : number :=
  if neq x (bitor0 x) then bitor0 (x + 0.5) else x.

Arguments printed x%_float.

(** * Properties *)

(** ** The two patterns *)

Lemma hex_class_match (c : ascii) :
  class_match true [("0", "9"); ("a", "f")]%char c = is_hex_digit c.
Proof. destruct c as [[] [] [] [] [] [] [] []]; reflexivity. Qed.

Lemma alpha_class_match (c : ascii) :
  class_match true [("a", "z")]%char c = is_alpha c.
Proof. destruct c as [[] [] [] [] [] [] [] []]; reflexivity. Qed.

Lemma hash_char_match (c : ascii) :
  char_match true "#" c = Ascii.eqb "#" c.
Proof. destruct c as [[] [] [] [] [] [] [] []]; reflexivity. Qed.

(** The named-colour pattern matches the strings of ASCII letters, the
    empty string among them. *)
Lemma NAMED_COLOR_RE_exec (s : string) :
  RegExp.exec NAMED_COLOR_RE_ s = JsString.all is_alpha s.
Proof.
  unfold RegExp.exec, NAMED_COLOR_RE_, Group; simpl.
  generalize (Nat.le_refl (String.length s)).
  generalize (String.length s) at 2 3 as fuel.
  intros fuel; revert s.
  induction fuel as [|fuel IH]; intros s Hlen.
  - destruct s; [reflexivity | simpl in Hlen; lia].
  - destruct s as [|c s]; [reflexivity|].
    cbn [JsString.all JsString.isEmpty]. rewrite orb_false_r.
    rewrite alpha_class_match. simpl in Hlen.
    replace (String.length s <? String.length (String c s))%nat with true
      by (symmetry; apply Nat.ltb_lt; simpl; lia).
    cbn [andb]. rewrite IH by lia. reflexivity.
Qed.

Lemma HEX_COLOR_RE_exec (s : string) :
  RegExp.exec HEX_COLOR_RE_ s = hex_shape s.
Proof.
  unfold RegExp.exec, HEX_COLOR_RE_, Group, Quant; simpl.
  destruct s as [|c0 s]; [reflexivity|].
  rewrite hash_char_match.
  destruct (Ascii.eqb_spec "#" c0) as [<-|Hne].
  2:{ simpl. destruct c0 as [[] [] [] [] [] [] [] []]; try reflexivity. congruence. }
  cbn [andb hex_shape].
  do 9 (destruct s as [|? s];
        [cbn; rewrite ?hex_class_match;
         repeat match goal with |- context [is_hex_digit ?c] => destruct (is_hex_digit c) end;
         reflexivity|]).
  cbn; rewrite ?hex_class_match, ?andb_false_r.
  repeat match goal with
         | |- context [is_hex_digit ?c] => is_var c; destruct (is_hex_digit c)
         end; reflexivity.
Qed.

(** ** Numbers *)

Lemma digits2_pos_iter (p q : positive) :
  digits2_pos (Pos.iter xO p q) = (digits2_pos p + q)%positive.
Proof.
  induction q as [|q IH] using Pos.peano_ind.
  - simpl. lia.
  - rewrite Pos.iter_succ. simpl. rewrite IH. lia.
Qed.

Lemma digits2_pos_bound (p : positive) :
  2 ^ (Zpos (digits2_pos p) - 1) <= Zpos p < 2 ^ Zpos (digits2_pos p).
Proof.
  induction p as [p IH|p IH|]; cbn [digits2_pos].
  - rewrite Pos2Z.inj_succ, Z.pow_succ_r by lia.
    replace (Z.succ (Zpos (digits2_pos p)) - 1) with (Z.succ (Zpos (digits2_pos p) - 1)) by lia.
    rewrite Z.pow_succ_r by lia. lia.
  - rewrite Pos2Z.inj_succ, Z.pow_succ_r by lia.
    replace (Z.succ (Zpos (digits2_pos p)) - 1) with (Z.succ (Zpos (digits2_pos p) - 1)) by lia.
    rewrite Z.pow_succ_r by lia. lia.
  - simpl. lia.
Qed.

Lemma binary_round_small (s : bool) (p : positive) :
  Zpos (digits2_pos p) < 53 ->
  binary_round prec emax s p 0
  = S754_finite s (Pos.iter xO p (Z.to_pos (53 - Zpos (digits2_pos p))))
                (Zpos (digits2_pos p) - 53).
Proof.
  intros Hd.
  set (d := digits2_pos p) in *.
  set (q := Z.to_pos (53 - Zpos d)).
  assert (Hq : Zpos q = 53 - Zpos d) by (unfold q; rewrite Z2Pos.id; lia).
  clearbody q.
  unfold binary_round, shl_align.
  fold d.
  assert (Hf : fexp prec emax (Zpos d + 0) = Zneg q).
  { unfold fexp, SpecFloat.emin, prec, emax. lia. }
  rewrite Hf. cbn [Z.sub Z.opp Z.add].
  unfold binary_round_aux, shr_fexp.
  cbn [Zdigits2]. rewrite digits2_pos_iter. fold d.
  assert (Hf2 : fexp prec emax (Zpos (d + q) + Zneg q) - Zneg q = 0).
  { unfold fexp, SpecFloat.emin, prec, emax. rewrite Pos2Z.inj_add. lia. }
  rewrite Hf2. cbn [shr shr_record_of_loc shr_m loc_of_shr_record round_nearest_even Zdigits2].
  rewrite digits2_pos_iter. fold d. rewrite Hf2.
  cbn [shr shr_m].
  replace (Zneg q <=? emax - prec) with true by (symmetry; apply Z.leb_le; unfold emax, prec; lia).
  change (Z.pos_sub d 53) with (Zpos d - 53). f_equal. lia.
Qed.

Lemma of_Z_to_Z (z : Z) : 0 <= z <= 2 ^ 31 -> Uint63.to_Z (Uint63.of_Z z) = z.
Proof.
  intros Hz. rewrite Uint63.of_Z_spec. apply Z.mod_small.
  change wB with (2 ^ 63). lia.
Qed.

Lemma digits2_pos_small (p : positive) :
  Zpos p <= 2 ^ 31 -> Zpos (digits2_pos p) < 53.
Proof.
  intros Hp. pose proof (digits2_pos_bound p) as [Hlo _].
  destruct (Z_lt_le_dec (Zpos (digits2_pos p)) 53) as [|Hge]; [assumption|].
  exfalso. assert (2 ^ 52 <= 2 ^ (Zpos (digits2_pos p) - 1)) by (apply Z.pow_le_mono_r; lia).
  lia.
Qed.

Lemma Prim2SF_of_int_pos (p : positive) :
  Zpos p <= 2 ^ 31 -> Prim2SF (of_int (Zpos p)) = sf_of_pos false p.
Proof.
  intros Hp. unfold of_int. cbn [Z.ltb Z.compare].
  rewrite of_uint63_spec, of_Z_to_Z by lia.
  cbn [binary_normalize]. apply binary_round_small, digits2_pos_small, Hp.
Qed.

Lemma Prim2SF_of_int_neg (p : positive) :
  Zpos p <= 2 ^ 31 -> Prim2SF (of_int (Zneg p)) = sf_of_pos true p.
Proof.
  intros Hp. unfold of_int. cbn [Z.ltb Z.compare Z.opp].
  rewrite opp_spec, of_uint63_spec, of_Z_to_Z by lia.
  cbn [binary_normalize]. rewrite binary_round_small by (apply digits2_pos_small, Hp).
  reflexivity.
Qed.

Lemma SFcompare_antisym (x y : spec_float) (c : comparison) :
  SFcompare x y = Some c -> SFcompare y x = Some (CompOpp c).
Proof.
  destruct x as [sx|sx| |sx mx ex], y as [sy|sy| |sy my ey]; simpl;
    try discriminate;
    try (destruct sx; intros [= <-]; reflexivity);
    try (destruct sy; intros [= <-]; reflexivity);
    try (destruct sx, sy; intros [= <-]; reflexivity).
  intros [= <-]. f_equal.
  rewrite (Z.compare_antisym ex ey), (ZC4 my mx).
  destruct sx, sy, (ex ?= ey), (Pos.compare_cont Eq mx my); reflexivity.
Qed.

Lemma SFcompare_refl (x : spec_float) :
  x <> S754_nan -> SFcompare x x = Some Eq.
Proof.
  destruct x as [s|s| |s m e]; simpl; intros H; try congruence.
  - destruct s; reflexivity.
  - rewrite Z.compare_refl, Pos.compare_cont_refl. destruct s; reflexivity.
Qed.

Lemma SFcompare_some_l (x y : spec_float) (c : comparison) :
  SFcompare x y = Some c -> x <> S754_nan.
Proof. destruct x; simpl; congruence. Qed.

Lemma SFcompare_some_r (x y : spec_float) (c : comparison) :
  SFcompare x y = Some c -> y <> S754_nan.
Proof. destruct x, y; simpl; congruence. Qed.

Lemma is_nan_false (x : float) : Prim2SF x <> S754_nan -> is_nan x = false.
Proof.
  intros H. unfold is_nan. rewrite FloatAxioms.eqb_spec. unfold SFeqb.
  now rewrite SFcompare_refl.
Qed.

Lemma leb_true_cases (x y : float) :
  (x <=? y)%float = true ->
  SFcompare (Prim2SF x) (Prim2SF y) = Some Lt
  \/ SFcompare (Prim2SF x) (Prim2SF y) = Some Eq.
Proof.
  rewrite FloatAxioms.leb_spec. unfold SFleb.
  destruct (SFcompare (Prim2SF x) (Prim2SF y)) as [[]|]; auto; discriminate.
Qed.

Lemma leb_not_nan (x y : float) :
  (x <=? y)%float = true -> is_nan x = false /\ is_nan y = false.
Proof.
  intros H. destruct (leb_true_cases _ _ H) as [Hc|Hc];
    split; apply is_nan_false;
    eauto using SFcompare_some_l, SFcompare_some_r.
Qed.

Lemma leb_ltb_false (x y : float) :
  (x <=? y)%float = true -> (y <? x)%float = false.
Proof.
  intros H. rewrite FloatAxioms.ltb_spec. unfold SFltb.
  destruct (leb_true_cases _ _ H) as [Hc|Hc];
    rewrite (SFcompare_antisym _ _ _ Hc); reflexivity.
Qed.

(** A Number that is neither below nor above zero, and not NaN, is a
    zero. *)
Lemma zero_cases (a : float) :
  (0 <=? a)%float = true -> (0 <? a)%float = false ->
  a = 0%float \/ a = (-0)%float.
Proof.
  intros Hle Hlt. rewrite FloatAxioms.ltb_spec in Hlt. unfold SFltb in Hlt.
  destruct (leb_true_cases _ _ Hle) as [Hc|Hc]; rewrite Hc in Hlt; [discriminate|].
  rewrite <- (SF2Prim_Prim2SF a).
  change (Prim2SF 0) with (S754_zero false) in Hc.
  destruct (Prim2SF a) as [s|s| |s m e]; simpl in Hc.
  - destruct s; [right|left]; reflexivity.
  - destruct s; discriminate.
  - discriminate.
  - destruct s; discriminate.
Qed.

Lemma clamp_unit_id (a : float) :
  (0 <=? a)%float = true -> (a <=? 1)%float = true -> a <> (-0)%float ->
  clamp a 0 1 = a.
Proof.
  intros H0 H1 Hnz.
  destruct (leb_not_nan _ _ H0) as [_ Hnan].
  pose proof (leb_ltb_false _ _ H0) as Hlt0.
  pose proof (leb_ltb_false _ _ H1) as Hgt1.
  unfold clamp, Math_max, Math_min.
  change (is_nan 0) with false. change (is_nan 1) with false.
  change (get_sign 0) with false. change (get_sign 1) with false.
  rewrite Hnan, Hlt0. cbn [orb].
  destruct (0 <? a)%float eqn:Hpos.
  - rewrite Hnan, Hgt1. cbn [orb]. destruct (a <? 1)%float; reflexivity.
  - destruct (zero_cases _ H0 Hpos) as [->| ->]; [reflexivity | congruence].
Qed.

Lemma wrap32_range (z : Z) : - 2 ^ 31 <= wrap32 z < 2 ^ 31.
Proof.
  unfold wrap32.
  pose proof (Z.mod_pos_bound z (2 ^ 32) ltac:(lia)).
  destruct (z mod 2 ^ 32 <? 2 ^ 31) eqn:E.
  - apply Z.ltb_lt in E. lia.
  - apply Z.ltb_ge in E. lia.
Qed.

Lemma ToInt32_range (x : float) : - 2 ^ 31 <= ToInt32 x < 2 ^ 31.
Proof.
  unfold ToInt32. destruct (Prim2SF x); try lia; apply wrap32_range.
Qed.

Lemma bytes_forall (P : Z -> bool) :
  forallb P bytes = true -> forall k, 0 <= k <= 255 -> P k = true.
Proof.
  intros H k Hk. rewrite forallb_forall in H. apply H.
  unfold bytes. rewrite <- (Z2Nat.id k) by lia.
  apply in_map, in_seq. lia.
Qed.

Lemma float_eqb_eq (x y : float) : PrimFloat.Leibniz.eqb x y = true -> x = y.
Proof. apply FloatAxioms.Leibniz.eqb_spec. Qed.

Lemma clamp_of_byte (k : Z) :
  0 <= k <= 255 -> clamp (of_int k) 0 255 = of_int k.
Proof.
  intros Hk. apply float_eqb_eq.
  revert k Hk. apply (bytes_forall (fun k => PrimFloat.Leibniz.eqb (clamp (of_int k) 0 255) (of_int k))).
  vm_compute. reflexivity.
Qed.

Lemma clamp_of_int (z : Z) :
  - 2 ^ 31 <= z < 2 ^ 31 ->
  clamp (of_int z) 0 255 = of_int (Z.min (Z.max z 0) 255).
Proof.
  intros Hz.
  destruct (Z_lt_le_dec z 0) as [Hneg|Hnn].
  - replace (Z.min (Z.max z 0) 255) with 0 by lia.
    destruct z as [|p|p]; try lia.
    assert (Hsf := Prim2SF_of_int_neg p ltac:(lia)).
    unfold clamp, Math_max.
    rewrite (is_nan_false (of_int (Z.neg p))) by (rewrite Hsf; discriminate).
    rewrite FloatAxioms.ltb_spec, Hsf. reflexivity.
  - destruct (Z_le_gt_dec z 255) as [Hle|Hgt].
    + replace (Z.min (Z.max z 0) 255) with z by lia.
      apply clamp_of_byte. lia.
    + replace (Z.min (Z.max z 0) 255) with 255 by lia.
      destruct z as [|p|p]; try lia.
      assert (Hsf := Prim2SF_of_int_pos p ltac:(lia)).
      assert (Hd : 9 <= Zpos (digits2_pos p)).
      { pose proof (digits2_pos_bound p) as [_ Hhi].
        destruct (Z_lt_le_dec (Zpos (digits2_pos p)) 9) as [Hlt|]; [|assumption].
        exfalso. assert (2 ^ Zpos (digits2_pos p) <= 2 ^ 8) by (apply Z.pow_le_mono_r; lia).
        lia. }
      assert (Hnan : is_nan (of_int (Z.pos p)) = false)
        by (apply is_nan_false; rewrite Hsf; discriminate).
      assert (Hmax : Math_max (of_int (Z.pos p)) 0 = of_int (Z.pos p)).
      { unfold Math_max. rewrite Hnan, !FloatAxioms.ltb_spec, Hsf. reflexivity. }
      unfold clamp. rewrite Hmax. unfold Math_min.
      rewrite Hnan, !FloatAxioms.ltb_spec, Hsf.
      change (Prim2SF 255) with (S754_finite false 8972014882652160 (-45)).
      unfold sf_of_pos. cbn [SFltb SFcompare orb is_nan].
      replace (Zpos (digits2_pos p) - 53 ?= -45) with Gt by (symmetry; apply Z.compare_gt_iff; lia).
      replace (-45 ?= Zpos (digits2_pos p) - 53) with Lt by (symmetry; apply Z.compare_lt_iff; lia).
      reflexivity.
Qed.

(** ** Normalising *)

Lemma round_of_byte (k : Z) :
  0 <= k <= 255 -> bitor0 (of_int k + 0.5) = of_int k.
Proof.
  intros Hk. apply float_eqb_eq. revert k Hk.
  apply (bytes_forall (fun k => PrimFloat.Leibniz.eqb (bitor0 (of_int k + 0.5)) (of_int k))).
  vm_compute. reflexivity.
Qed.

Lemma channel_byte (x : number) :
  exists k, 0 <= k <= 255 /\ channel x = of_int k.
Proof.
  unfold channel, bitor0.
  exists (Z.min (Z.max (ToInt32 (x + 0.5)) 0) 255). split; [lia|].
  apply clamp_of_int, ToInt32_range.
Qed.

Lemma channel_of_byte (k : Z) : 0 <= k <= 255 -> channel (of_int k) = of_int k.
Proof.
  intros Hk. unfold channel. rewrite round_of_byte by assumption.
  now apply clamp_of_byte.
Qed.

Lemma channel_idempotent (x : number) : channel (channel x) = channel x.
Proof.
  destruct (channel_byte x) as (k & Hk & ->). now apply channel_of_byte.
Qed.

Lemma clamp_unit_idempotent (a : number) : clamp (clamp a 0 1) 0 1 = clamp a 0 1.
Proof.
  unfold clamp, Math_max, Math_min.
  change (is_nan 0) with false. change (is_nan 1) with false.
  change (get_sign 0) with false. change (get_sign 1) with false.
  rewrite !orb_false_r.
  destruct (is_nan a) eqn:Hn; [reflexivity|].
  destruct (a <? 0)%float eqn:H1; [reflexivity|].
  destruct (0 <? a)%float eqn:H2; [|reflexivity].
  rewrite Hn.
  destruct (a <? 1)%float eqn:H3.
  { rewrite Hn, H1, H2, Hn, H3. reflexivity. }
  destruct (1 <? a)%float eqn:H4; [reflexivity|].
  rewrite Hn, H1, H2, Hn, H3, H4. reflexivity.
Qed.

Lemma normalize_fields (c : Color) :
  normalize c None
  = [channel (JsArray.at_ c 0); channel (JsArray.at_ c 1);
     channel (JsArray.at_ c 2); clamp (JsArray.at_ c 3) 0 1].
Proof. reflexivity. Qed.

(** C9: [normalize] rounds each of the first three fields with [(x + 0.5) | 0]
    and clamps it to 0..255, clamps the fourth to 0..1 as it is, and is
    idempotent on every array of four Numbers. *)
Theorem normalize_idempotent (r g b a : number) :
  normalize [r; g; b; a] None
  = [clamp (bitor0 (r + 0.5)) 0 255; clamp (bitor0 (g + 0.5)) 0 255;
     clamp (bitor0 (b + 0.5)) 0 255; clamp a 0 1]
  /\ normalize (normalize [r; g; b; a] None) None = normalize [r; g; b; a] None.
Proof.
  split; [reflexivity|].
  rewrite !normalize_fields. cbn [JsArray.at_ nth].
  now rewrite !channel_idempotent, clamp_unit_idempotent.
Qed.

(** ** Strings *)

Lemma string_length_app (s t : string) :
  String.length (s ++ t) = (String.length s + String.length t)%nat.
Proof. induction s as [|c s IH]; simpl; [reflexivity | now rewrite IH]. Qed.

Lemma string_app_assoc (s t u : string) : (s ++ t) ++ u = s ++ t ++ u.
Proof. induction s as [|c s IH]; simpl; [reflexivity | now rewrite IH]. Qed.

Lemma take_length_app (s t : string) :
  JsString.take (String.length s) (s ++ t) = s.
Proof. induction s as [|c s IH]; simpl; [now destruct t | now rewrite IH]. Qed.

Lemma drop_length_app (s t : string) :
  JsString.drop (String.length s) (s ++ t) = t.
Proof. induction s as [|c s IH]; simpl; [now destruct t | assumption]. Qed.

Lemma all_app (p : ascii -> bool) (s t : string) :
  JsString.all p (s ++ t) = JsString.all p s && JsString.all p t.
Proof. induction s as [|c s IH]; simpl; [reflexivity | now rewrite IH, andb_assoc]. Qed.

Lemma all_take (p : ascii -> bool) (n : nat) (s : string) :
  JsString.all p s = true -> JsString.all p (JsString.take n s) = true.
Proof.
  revert s; induction n as [|n IH]; intros [|c s]; simpl; try reflexivity.
  intros [Hc Hs]%andb_prop. now rewrite Hc, IH.
Qed.

Lemma all_drop (p : ascii -> bool) (n : nat) (s : string) :
  JsString.all p s = true -> JsString.all p (JsString.drop n s) = true.
Proof.
  revert s; induction n as [|n IH]; intros [|c s]; simpl; try easy.
  intros [Hc Hs]%andb_prop. now apply IH.
Qed.

Lemma all_impl (p q : ascii -> bool) (s : string) :
  (forall c, p c = true -> q c = true) ->
  JsString.all p s = true -> JsString.all q s = true.
Proof.
  intros Hpq. induction s as [|c s IH]; simpl; [reflexivity|].
  intros [Hc Hs]%andb_prop. now rewrite (Hpq _ Hc), IH.
Qed.

Lemma split_without (sep : ascii) (s : string) :
  JsString.all (other_than sep) s = true -> JsString.split sep s = [s].
Proof.
  induction s as [|c s IH]; simpl; [reflexivity|].
  unfold other_than at 1. intros [Hc Hs]%andb_prop.
  apply negb_true_iff in Hc. now rewrite Hc, IH.
Qed.

Lemma split_app (sep : ascii) (s t : string) :
  JsString.all (other_than sep) s = true ->
  JsString.split sep (s ++ String sep t) = s :: JsString.split sep t.
Proof.
  induction s as [|c s IH]; simpl.
  - now rewrite Ascii.eqb_refl.
  - unfold other_than at 1. intros [Hc Hs]%andb_prop.
    apply negb_true_iff in Hc. now rewrite Hc, IH.
Qed.

Lemma slice_inner (p x : string) (c : ascii) :
  JsString.slice (p ++ x ++ String c "") (JsString.length p) (-1) = x.
Proof.
  unfold JsString.slice, JsString.relative, JsString.length.
  rewrite !string_length_app. cbn [String.length].
  replace (Z.of_nat (String.length p) <? 0) with false by (symmetry; apply Z.ltb_ge; lia).
  cbn [Z.ltb Z.compare].
  rewrite Z.min_l, Nat2Z.id by lia.
  rewrite drop_length_app.
  match goal with |- JsString.take (Z.to_nat ?n) _ = _ =>
    replace n with (Z.of_nat (String.length x)) by lia end.
  rewrite Nat2Z.id. apply take_length_app.
Qed.

(** ** The decimal string of a Number holds no comma *)

Lemma digit_char_is_digit (z : Z) : is_digit (digit_char (z mod 10)) = true.
Proof.
  pose proof (Z.mod_pos_bound z 10 ltac:(lia)) as H.
  assert (Hd : In (z mod 10) [0; 1; 2; 3; 4; 5; 6; 7; 8; 9]) by (simpl; lia).
  revert Hd. generalize (z mod 10). intros d Hd. simpl in Hd.
  repeat (destruct Hd as [<-|Hd]; [reflexivity|]). contradiction.
Qed.

Lemma digits_loop_all (fuel : nat) (z : Z) (acc : string) :
  JsString.all is_digit acc = true ->
  JsString.all is_digit (digits_loop fuel z acc) = true.
Proof.
  revert z acc; induction fuel as [|fuel IH]; intros z acc Hacc; simpl; [assumption|].
  destruct (z <? 10); [|apply IH]; simpl; now rewrite digit_char_is_digit.
Qed.

Lemma digits_all (z : Z) : JsString.all is_digit (digits z) = true.
Proof. apply digits_loop_all. reflexivity. Qed.

Lemma zeros_all (n : nat) : JsString.all is_digit (zeros n) = true.
Proof. induction n; simpl; [reflexivity | assumption]. Qed.

Lemma digit_not_comma (c : ascii) : is_digit c = true -> other_than "," c = true.
Proof. destruct c as [[] [] [] [] [] [] [] []]; vm_compute; congruence. Qed.

Lemma digits_no_comma (z : Z) : JsString.all (other_than ",") (digits z) = true.
Proof. apply (all_impl _ _ _ digit_not_comma), digits_all. Qed.

Lemma zeros_no_comma (n : nat) : JsString.all (other_than ",") (zeros n) = true.
Proof. apply (all_impl _ _ _ digit_not_comma), zeros_all. Qed.

Lemma layout_no_comma (s n k : Z) :
  JsString.all (other_than ",") (layout s n k) = true.
Proof.
  unfold layout.
  repeat match goal with
         | |- context [if ?b then _ else _] => destruct b
         end;
    rewrite ?all_app;
    repeat (apply andb_true_intro; split);
    auto using digits_no_comma, zeros_no_comma, all_take, all_drop.
Qed.

Lemma numberToString_no_comma (x : number) :
  JsString.all (other_than ",") (numberToString x) = true.
Proof.
  unfold numberToString.
  destruct (Prim2SF x) as [s|s| |s m e]; try (destruct s; reflexivity); try reflexivity.
  rewrite all_app. apply andb_true_intro; split; [destruct s; reflexivity|].
  unfold positive_to_string.
  destruct (shortest_loop _ _ _ _ _ _) as [[s' n'] k].
  apply layout_no_comma.
Qed.

(** ** A quotient that is a Number is that Number *)

Lemma iter_pos_iter {A : Type} (f : A -> A) (n : positive) (x : A) :
  iter_pos f n x = Pos.iter f x n.
Proof.
  revert x; induction n as [n IH|n IH|]; intros x; cbn [iter_pos Pos.iter].
  - now rewrite !IH, <- !Pos.iter_swap.
  - now rewrite !IH.
  - reflexivity.
Qed.

Lemma Zpos_iter_xO (m t : positive) :
  Zpos (Pos.iter xO m t) = Zpos m * 2 ^ Zpos t.
Proof.
  induction t as [|t IH] using Pos.peano_ind.
  - cbn [Pos.iter]. lia.
  - rewrite Pos.iter_succ, Pos2Z.inj_succ, Z.pow_succ_r by lia.
    rewrite Pos2Z.inj_xO, IH. lia.
Qed.

(** Shifting out the zeros that were shifted in loses nothing. *)
Lemma shr_shifted (m t : positive) :
  iter_pos shr_1 t {| shr_m := Zpos (Pos.iter xO m t); shr_r := false; shr_s := false |}
  = {| shr_m := Zpos m; shr_r := false; shr_s := false |}.
Proof.
  rewrite iter_pos_iter.
  induction t as [|t IH] using Pos.peano_ind.
  - reflexivity.
  - rewrite (Pos.iter_succ_r t shr_record), (Pos.iter_succ t positive).
    cbn [shr_1 orb]. exact IH.
Qed.

(** Rounding [m * 2^t] at the exponent [e - t], where [m] at the exponent
    [e] is a Number, gives that Number. *)
Lemma binary_round_aux_exact (s : bool) (m : positive) (e t : Z) :
  SpecFloat.bounded prec emax m e = true -> 0 <= t ->
  binary_round_aux prec emax s (Zpos m * 2 ^ t) (e - t) loc_Exact = S754_finite s m e.
Proof.
  intros Hb Ht. unfold SpecFloat.bounded in Hb. apply andb_prop in Hb. destruct Hb as [Hc He].
  unfold canonical_mantissa in Hc. apply Z.eqb_eq in Hc.
  assert (Hshift : forall d : Z, fexp prec emax (Zpos (digits2_pos m) + d + (e - d)) - (e - d) = d).
  { intros d. replace (Zpos (digits2_pos m) + d + (e - d)) with (Zpos (digits2_pos m) + e) by lia.
    rewrite Hc. lia. }
  assert (Hlast : shr_fexp prec emax (Zpos m) e loc_Exact
                  = ({| shr_m := Zpos m; shr_r := false; shr_s := false |}, e)).
  { unfold shr_fexp. cbn [Zdigits2]. rewrite Hc, Z.sub_diag. reflexivity. }
  destruct t as [|t|t]; [| |lia].
  - rewrite Z.pow_0_r, Z.mul_1_r, Z.sub_0_r.
    unfold binary_round_aux. rewrite Hlast.
    cbn [shr_m loc_of_shr_record round_nearest_even]. rewrite Hlast.
    cbn [shr_m]. now rewrite He.
  - rewrite <- Zpos_iter_xO.
    unfold binary_round_aux.
    assert (Hfirst : shr_fexp prec emax (Zpos (Pos.iter xO m t)) (e - Zpos t) loc_Exact
                     = ({| shr_m := Zpos m; shr_r := false; shr_s := false |}, e)).
    { unfold shr_fexp. cbn [Zdigits2]. rewrite digits2_pos_iter, Pos2Z.inj_add, Hshift.
      cbn [shr shr_record_of_loc]. rewrite shr_shifted. f_equal. lia. }
    rewrite Hfirst.
    cbn [shr_m loc_of_shr_record round_nearest_even]. rewrite Hlast.
    cbn [shr_m]. now rewrite He.
Qed.

Lemma Zdigits2_bound (p : positive) :
  2 ^ (Zdigits2 (Zpos p) - 1) <= Zpos p < 2 ^ Zdigits2 (Zpos p).
Proof. apply digits2_pos_bound. Qed.

Lemma fexp_mono (a b : Z) : a <= b -> fexp prec emax a <= fexp prec emax b.
Proof. unfold fexp. lia. Qed.

Lemma pow2_lt_exponents (a b : Z) : 0 <= a -> 0 <= b -> 2 ^ a < 2 ^ b -> a < b.
Proof.
  intros Ha Hb H. destruct (Z_lt_le_dec a b) as [|Hge]; [assumption|].
  exfalso. pose proof (Z.pow_le_mono_r 2 b a ltac:(lia) Hge). lia.
Qed.

(** The quotient of two integers that is exactly the Number [m * 2^e]. *)
Lemma SFdiv_exact (m : positive) (e : Z) (p d : positive) :
  SpecFloat.bounded prec emax m e = true -> e < 0 ->
  Zpos p * 2 ^ (- e) = Zpos m * Zpos d ->
  SFdiv prec emax (S754_finite false p 0) (S754_finite false d 0) = S754_finite false m e.
Proof.
  intros Hb He Heq.
  assert (Hc : fexp prec emax (Zpos (digits2_pos m) + e) = e).
  { unfold SpecFloat.bounded in Hb. apply andb_prop in Hb. destruct Hb as [Hc _].
    now apply Z.eqb_eq in Hc. }
  pose proof (digits2_pos_bound m) as [Hm1 Hm2].
  pose proof (digits2_pos_bound p) as [Hp1 Hp2].
  pose proof (digits2_pos_bound d) as [Hd1 Hd2].
  set (dm := Zpos (digits2_pos m)) in *.
  set (dp := Zpos (digits2_pos p)) in *.
  set (dd := Zpos (digits2_pos d)) in *.
  assert (Hdm : 0 < dm) by (unfold dm; lia).
  assert (Hdp : 0 < dp) by (unfold dp; lia).
  assert (Hdd : 0 < dd) by (unfold dd; lia).
  (* the exponent at which the division is made is at most [e] *)
  assert (Hle : dp - dd <= dm + e).
  { assert (H : 2 ^ (dp - 1 + - e) < 2 ^ (dm + dd)).
    { rewrite !Z.pow_add_r by lia.
      apply Z.le_lt_trans with (Zpos p * 2 ^ (- e)).
      - apply Z.mul_le_mono_nonneg_r; [apply Z.pow_nonneg; lia | assumption].
      - rewrite Heq. apply Z.mul_lt_mono_nonneg; lia. }
    apply pow2_lt_exponents in H; lia. }
  set (e' := Z.min (fexp prec emax (dp + 0 - (dd + 0))) (0 - 0)).
  assert (He' : e' <= e).
  { unfold e'. apply Z.le_trans with (fexp prec emax (dp + 0 - (dd + 0))); [lia|].
    rewrite <- Hc. apply fexp_mono. lia. }
  unfold SFdiv, SFdiv_core_binary. cbn [Zdigits2 xorb]. fold dp dd e'.
  replace (0 - 0 - e') with (- e') by lia.
  destruct (- e') as [|sh|sh] eqn:Hsh; try lia.
  rewrite Z.shiftl_mul_pow2 by lia.
  assert (Hm' : Zpos p * 2 ^ Zpos sh = Zpos m * 2 ^ (e - e') * Zpos d).
  { replace (Zpos sh) with (- e + (e - e')) by lia.
    rewrite Z.pow_add_r by lia. rewrite Z.mul_assoc, Heq. ring. }
  rewrite Hm'.
  pose proof (Z.div_eucl_eq (Zpos m * 2 ^ (e - e') * Zpos d) (Zpos d) ltac:(lia)) as Hdiv.
  pose proof (Z.mod_pos_bound (Zpos m * 2 ^ (e - e') * Zpos d) (Zpos d) ltac:(lia)) as Hmod.
  unfold Z.modulo in Hmod.
  destruct (Z.div_eucl (Zpos m * 2 ^ (e - e') * Zpos d) (Zpos d)) as [q r].
  assert (Hr : r = 0).
  { assert (Hr' : r = Zpos d * (Zpos m * 2 ^ (e - e') - q)) by lia.
    destruct (Z.eq_dec (Zpos m * 2 ^ (e - e') - q) 0) as [E|E]; [rewrite Hr', E; lia|].
    exfalso. nia. }
  assert (Hq : q = Zpos m * 2 ^ (e - e')) by nia.
  subst r q.
  assert (Hloc : new_location (Zpos d) 0 = loc_Exact).
  { unfold new_location, new_location_even, new_location_odd.
    destruct (Z.even (Zpos d)); reflexivity. }
  rewrite Hloc.
  replace e' with (e - (e - e')) at 2 by lia.
  apply binary_round_aux_exact; [assumption | lia].
Qed.

(** A decimal that is exactly the Number [x] converts to [x]. *)
Lemma make_float_exact (x : float) (m : positive) (e : Z) (p : positive) (c : Z) :
  Prim2SF x = S754_finite false m e -> e < 0 -> 0 < c ->
  Zpos p * 2 ^ (- e) = Zpos m * 10 ^ c ->
  make_float false (Zpos p) (- c) = x.
Proof.
  intros Hx He Hc Heq.
  unfold make_float.
  replace (0 <=? - c) with false by (symmetry; apply Z.leb_gt; lia).
  rewrite Z.opp_involutive.
  assert (Hpos : 0 < 10 ^ c) by (apply Z.pow_pos_nonneg; lia).
  rewrite (SFdiv_exact m e).
  - rewrite <- Hx. apply SF2Prim_Prim2SF.
  - pose proof (Prim2SF_valid x) as Hv. now rewrite Hx in Hv.
  - assumption.
  - rewrite Z2Pos.id by assumption. assumption.
Qed.

(** ** Reading decimal digits *)

Lemma is_digit_radix (c : ascii) : is_digit c = true -> is_radix_digit 10 c = true.
Proof. destruct c as [[] [] [] [] [] [] [] []]; vm_compute; congruence. Qed.

Lemma read_digits_app (ds rest : string) (acc cnt : Z) :
  JsString.all is_digit ds = true -> stops rest = true ->
  read_digits 10 (ds ++ rest) acc cnt
  = (decimal_value ds acc, cnt + Z.of_nat (String.length ds), rest).
Proof.
  intros Hds Hrest. revert acc cnt.
  induction ds as [|c ds IH]; intros acc cnt; cbn [String.append String.length decimal_value].
  - destruct rest as [|c r]; cbn [read_digits].
    + f_equal. f_equal. lia.
    + cbn [stops] in Hrest. apply negb_true_iff in Hrest. rewrite Hrest.
      f_equal. f_equal. lia.
  - cbn [JsString.all] in Hds. apply andb_prop in Hds. destruct Hds as [Hc Hds].
    cbn [read_digits]. rewrite (is_digit_radix _ Hc), (IH Hds).
    f_equal. f_equal. lia.
Qed.

Lemma read_digits_all (ds : string) (acc cnt : Z) :
  JsString.all is_digit ds = true ->
  read_digits 10 ds acc cnt = (decimal_value ds acc, cnt + Z.of_nat (String.length ds), "").
Proof.
  intros Hds.
  replace ds with (ds ++ "") at 1 by (clear; induction ds; simpl; congruence).
  now apply read_digits_app.
Qed.

Lemma decimal_value_app (s1 s2 : string) (acc : Z) :
  decimal_value (s1 ++ s2) acc = decimal_value s2 (decimal_value s1 acc).
Proof. revert acc; induction s1 as [|c s1 IH]; intros acc; simpl; [reflexivity | apply IH]. Qed.

Lemma decimal_value_zeros (n : nat) (acc : Z) :
  decimal_value (zeros n) acc = acc * 10 ^ Z.of_nat n.
Proof.
  revert acc; induction n as [|n IH]; intros acc.
  - simpl. lia.
  - cbn [zeros decimal_value]. rewrite IH, Nat2Z.inj_succ, Z.pow_succ_r by lia.
    change (digit_value "0") with 0. lia.
Qed.

Lemma zeros_length (n : nat) : String.length (zeros n) = n.
Proof. induction n; simpl; congruence. Qed.

Lemma take_drop (n : nat) (s : string) : JsString.take n s ++ JsString.drop n s = s.
Proof.
  revert s; induction n as [|n IH]; intros [|c s]; simpl; try reflexivity.
  now rewrite IH.
Qed.

Lemma take_length (n : nat) (s : string) :
  (n <= String.length s)%nat -> String.length (JsString.take n s) = n.
Proof.
  revert s; induction n as [|n IH]; intros [|c s]; simpl; try lia.
  intros H. rewrite IH; lia.
Qed.

Lemma drop_length (n : nat) (s : string) :
  String.length (JsString.drop n s) = (String.length s - n)%nat.
Proof.
  revert s; induction n as [|n IH]; intros [|c s]; simpl; try lia. apply IH.
Qed.

(** ** The decimal digits of an integer *)

Lemma digit_value_char (d : Z) : 0 <= d < 10 -> digit_value (digit_char d) = d.
Proof.
  intros H. assert (Hd : In d [0; 1; 2; 3; 4; 5; 6; 7; 8; 9]) by (simpl; lia).
  simpl in Hd. repeat (destruct Hd as [<-|Hd]; [reflexivity|]). contradiction.
Qed.

Lemma digits_loop_spec (fuel : nat) (z : Z) (acc : string) :
  0 <= z < 10 ^ Z.of_nat (S fuel) ->
  exists (k : nat) (ds : string),
    digits_loop (S fuel) z acc = ds ++ acc
    /\ String.length ds = S k
    /\ (0 < z -> 10 ^ Z.of_nat k <= z) /\ z < 10 ^ Z.of_nat (S k)
    /\ forall a, decimal_value ds a = a * 10 ^ Z.of_nat (S k) + z.
Proof.
  revert z acc; induction fuel as [|fuel IH]; intros z acc Hz.
  - exists O, (String (digit_char (z mod 10)) "").
    change (10 ^ Z.of_nat 1) with 10 in *.
    cbn [digits_loop]. replace (z <? 10) with true by (symmetry; apply Z.ltb_lt; lia).
    rewrite Z.mod_small by lia.
    repeat split; try (simpl; lia).
    intros a. cbn [decimal_value]. rewrite digit_value_char by lia. lia.
  - cbn [digits_loop]. destruct (Z.ltb_spec z 10) as [Hlt|Hge].
    + exists O, (String (digit_char (z mod 10)) "").
      rewrite Z.mod_small by lia.
      repeat split; try (simpl; lia).
      intros a. cbn [decimal_value]. rewrite digit_value_char by lia.
      change (10 ^ Z.of_nat 1) with 10. lia.
    + assert (Hz' : 0 <= z / 10 < 10 ^ Z.of_nat (S fuel)).
      { split; [apply Z.div_pos; lia|].
        apply Z.div_lt_upper_bound; [lia|].
        rewrite (Nat2Z.inj_succ (S fuel)), Z.pow_succ_r in Hz by lia. lia. }
      destruct (IH (z / 10) (String (digit_char (z mod 10)) acc) Hz')
        as (k & ds & Hloop & Hlen & Hlo & Hhi & Hval).
      change (digits_loop (S fuel) (z / 10) (String (digit_char (z mod 10)) acc)
              = ds ++ String (digit_char (z mod 10)) acc) in Hloop.
      exists (S k), (ds ++ String (digit_char (z mod 10)) "").
      pose proof (Z.div_mod z 10 ltac:(lia)) as Hdm.
      pose proof (Z.mod_pos_bound z 10 ltac:(lia)) as Hmod.
      assert (Hq : 0 < z / 10) by (apply Z.div_str_pos; lia).
      specialize (Hlo Hq).
      rewrite (Nat2Z.inj_succ (S k)), Z.pow_succ_r by lia.
      rewrite (Nat2Z.inj_succ k), Z.pow_succ_r in * by lia.
      repeat split.
      * change (digits_loop (S fuel) (z / 10) (String (digit_char (z mod 10)) acc)
                = (ds ++ String (digit_char (z mod 10)) "") ++ acc).
        rewrite Hloop. now rewrite string_app_assoc.
      * rewrite string_length_app, Hlen. simpl. lia.
      * intros _. lia.
      * lia.
      * intros a. rewrite decimal_value_app, Hval. cbn [decimal_value].
        rewrite digit_value_char by lia. lia.
Qed.

Lemma pow10_unique (z k k' : Z) :
  0 <= k -> 0 <= k' -> 10 ^ k <= z < 10 ^ (k + 1) -> 10 ^ k' <= z < 10 ^ (k' + 1) -> k = k'.
Proof.
  intros Hk Hk' [H1 H2] [H3 H4].
  destruct (Z_lt_le_dec k k') as [Hlt|Hge].
  - exfalso. pose proof (Z.pow_le_mono_r 10 (k + 1) k' ltac:(lia) ltac:(lia)). lia.
  - destruct (Z_lt_le_dec k' k) as [Hlt|Hge']; [|lia].
    exfalso. pose proof (Z.pow_le_mono_r 10 (k' + 1) k ltac:(lia) ltac:(lia)). lia.
Qed.

(** The digits of an integer of [k] digits: [k] digits that read back as
    the integer. *)
Lemma digits_spec (z k : Z) :
  1 <= k -> 10 ^ (k - 1) <= z < 10 ^ k ->
  Z.of_nat (String.length (digits z)) = k
  /\ forall a, decimal_value (digits z) a = a * 10 ^ k + z.
Proof.
  intros Hk Hz.
  assert (Hpos : 0 < z).
  { assert (0 < 10 ^ (k - 1)) by (apply Z.pow_pos_nonneg; lia). lia. }
  unfold digits.
  assert (Hfuel : 0 <= z < 10 ^ Z.of_nat (S (Z.to_nat (Z.log2 z)))).
  { split; [lia|]. rewrite Nat2Z.inj_succ, Z2Nat.id by apply Z.log2_nonneg.
    pose proof (Z.log2_spec z Hpos) as [_ Hlog].
    apply Z.lt_le_trans with (2 ^ Z.succ (Z.log2 z)); [assumption|].
    apply Z.pow_le_mono_l. lia. }
  destruct (digits_loop_spec _ z "" Hfuel) as (k' & ds & Hloop & Hlen & Hlo & Hhi & Hval).
  rewrite Hloop.
  replace (ds ++ "") with ds by (clear; induction ds; simpl; congruence).
  specialize (Hlo Hpos).
  assert (Hk' : Z.of_nat k' = k - 1).
  { apply (pow10_unique z); try lia.
    now replace (k - 1 + 1) with k by lia. }
  rewrite Hlen, Nat2Z.inj_succ, Hk'.
  split; [lia|]. intros a. rewrite Hval, Nat2Z.inj_succ, Hk'. now replace (Z.succ (k - 1)) with k by lia.
Qed.

(** ** Converting a decimal literal *)

Lemma digit_not_space (c : ascii) : is_digit c = true -> not_space c = true.
Proof. destruct c as [[] [] [] [] [] [] [] []]; vm_compute; congruence. Qed.

Lemma trim_start_id (s : string) : JsString.all not_space s = true -> trim_start s = s.
Proof.
  destruct s as [|c s]; [reflexivity|]. cbn [JsString.all trim_start].
  intros [Hc _]%andb_prop. apply negb_true_iff in Hc. now rewrite Hc.
Qed.

Lemma trim_end_id (s : string) : JsString.all not_space s = true -> trim_end s = s.
Proof.
  induction s as [|c s IH]; [reflexivity|]. cbn [JsString.all trim_end].
  intros [Hc Hs]%andb_prop. rewrite (IH Hs).
  apply negb_true_iff in Hc. rewrite Hc. now destruct s.
Qed.

(** A string without white space that starts like an unsigned decimal
    literal is converted as one. *)
Lemma Number_unsigned (s : string) :
  JsString.all not_space s = true -> unsigned_start s = true ->
  Number s = read_decimal false s.
Proof.
  intros Hsp Hst. unfold Number. rewrite (trim_start_id _ Hsp), (trim_end_id _ Hsp).
  clear Hsp. destruct s as [|c1 rest]; [discriminate|].
  cbn [unsigned_start] in Hst. apply andb_prop in Hst. destruct Hst as [H1 H2].
  destruct c1 as [[] [] [] [] [] [] [] []]; try discriminate H1; clear H1;
    try reflexivity.
  destruct rest as [|c2 rest]; [reflexivity|].
  destruct c2 as [[] [] [] [] [] [] [] []]; try discriminate H2; reflexivity.
Qed.

Lemma unsigned_start_app (ds rest : string) :
  JsString.all is_digit ds = true -> ds <> "" ->
  match rest with String c _ => literal_char c | EmptyString => true end = true ->
  unsigned_start (ds ++ rest) = true.
Proof.
  intros Hds Hne Hrest. destruct ds as [|c1 ds]; [congruence|].
  cbn [JsString.all] in Hds. apply andb_prop in Hds. destruct Hds as [H1 Hds].
  cbn [String.append unsigned_start]. rewrite H1. cbn [andb].
  destruct ds as [|c2 ds]; cbn [String.append].
  - destruct rest; assumption.
  - cbn [JsString.all] in Hds. apply andb_prop in Hds. destruct Hds as [H2 _].
    unfold literal_char. now rewrite H2.
Qed.

Lemma length_pos_nonempty (s : string) : (0 < String.length s)%nat -> s <> "".
Proof. destruct s; simpl; [lia | discriminate]. Qed.

(** Digits alone. *)
Lemma read_decimal_integer (ip : string) :
  JsString.all is_digit ip = true -> (0 < String.length ip)%nat ->
  read_decimal false ip = make_float false (decimal_value ip 0) 0.
Proof.
  intros Hip Hlen. unfold read_decimal.
  rewrite read_digits_all by assumption.
  replace (0 <? 0 + Z.of_nat (String.length ip) + 0) with true
    by (symmetry; apply Z.ltb_lt; lia).
  reflexivity.
Qed.

(** Digits and a fraction. *)
Lemma read_decimal_fraction (ip fp : string) :
  JsString.all is_digit ip = true -> JsString.all is_digit fp = true ->
  (0 < String.length ip + String.length fp)%nat ->
  read_decimal false (ip ++ "." ++ fp)
  = make_float false (decimal_value fp (decimal_value ip 0))
                     (0 - Z.of_nat (String.length fp)).
Proof.
  intros Hip Hfp Hlen. unfold read_decimal.
  rewrite read_digits_app by (assumption || reflexivity).
  cbn [String.append]. rewrite read_digits_all by assumption.
  replace (0 <? 0 + Z.of_nat (String.length ip) + (0 + Z.of_nat (String.length fp))) with true
    by (symmetry; apply Z.ltb_lt; lia).
  cbn [read_exponent]. now rewrite Z.add_0_l.
Qed.

(** The exponent part [e-...] or [e+...]. *)
Lemma read_exponent_signed (neg : bool) (z k : Z) :
  1 <= k -> 10 ^ (k - 1) <= z < 10 ^ k ->
  read_exponent (String "e" ((if neg then "-" else "+") ++ digits z))
  = Some (if neg then - z else z).
Proof.
  intros Hk Hz. destruct (digits_spec z k Hk Hz) as [Hlen Hval].
  cbn [read_exponent Ascii.eqb Bool.eqb orb].
  assert (Hsign : read_sign ((if neg then "-" else "+") ++ digits z) = (neg, digits z))
    by (destruct neg; reflexivity).
  rewrite Hsign, read_digits_all by apply digits_all.
  rewrite Hval, Hlen.
  replace (0 <? 0 + k) with true by (symmetry; apply Z.ltb_lt; lia).
  now rewrite Z.mul_0_l, Z.add_0_l.
Qed.

(** Digits and an exponent. *)
Lemma read_decimal_exponent (ip ex : string) (e : Z) :
  JsString.all is_digit ip = true -> (0 < String.length ip)%nat ->
  read_exponent (String "e" ex) = Some e ->
  read_decimal false (ip ++ String "e" ex) = make_float false (decimal_value ip 0) (e - 0).
Proof.
  intros Hip Hlen Hex. unfold read_decimal.
  rewrite read_digits_app by (assumption || reflexivity).
  replace (0 <? 0 + Z.of_nat (String.length ip) + 0) with true
    by (symmetry; apply Z.ltb_lt; lia).
  now rewrite Hex.
Qed.

(** Digits, a fraction and an exponent. *)
Lemma read_decimal_scientific (ip fp ex : string) (e : Z) :
  JsString.all is_digit ip = true -> JsString.all is_digit fp = true ->
  (0 < String.length ip + String.length fp)%nat ->
  read_exponent (String "e" ex) = Some e ->
  read_decimal false (ip ++ "." ++ fp ++ String "e" ex)
  = make_float false (decimal_value fp (decimal_value ip 0))
                     (e - Z.of_nat (String.length fp)).
Proof.
  intros Hip Hfp Hlen Hex. unfold read_decimal.
  rewrite read_digits_app by (assumption || reflexivity).
  cbn [String.append]. rewrite read_digits_app by (assumption || reflexivity).
  replace (0 <? 0 + Z.of_nat (String.length ip) + (0 + Z.of_nat (String.length fp))) with true
    by (symmetry; apply Z.ltb_lt; lia).
  now rewrite Hex, Z.add_0_l.
Qed.

(** An integer mantissa with a power of ten or with its zeros written out. *)
Lemma make_float_scale (s c : Z) :
  0 < s -> 0 <= c -> make_float false (s * 10 ^ c) 0 = make_float false s c.
Proof.
  intros Hs Hc. unfold make_float.
  assert (Hpos : 0 < s * 10 ^ c) by (apply Z.mul_pos_pos; [|apply Z.pow_pos_nonneg]; lia).
  destruct s as [|p|p]; try lia.
  destruct (Z.pos p * 10 ^ c) as [|q|q] eqn:E; try lia.
  replace (0 <=? c) with true by (symmetry; apply Z.leb_le; lia).
  cbn [Z.leb Z.compare]. now rewrite Z.pow_0_r, Z.mul_1_r.
Qed.

Lemma not_space_all_digits (s : string) :
  JsString.all is_digit s = true -> JsString.all not_space s = true.
Proof. apply all_impl, digit_not_space. Qed.

Lemma layout_no_space (s n k : Z) : JsString.all not_space (layout s n k) = true.
Proof.
  unfold layout.
  repeat match goal with
         | |- context [if ?b then _ else _] => destruct b
         end;
    rewrite ?all_app;
    repeat (apply andb_true_intro; split);
    auto using not_space_all_digits, digits_all, zeros_all, all_take, all_drop.
Qed.

Lemma pow10_bracket (z : Z) : 0 < z -> exists k, 1 <= k /\ 10 ^ (k - 1) <= z < 10 ^ k.
Proof.
  intros Hz.
  assert (Hfuel : 0 <= z < 10 ^ Z.of_nat (S (Z.to_nat (Z.log2 z)))).
  { split; [lia|]. rewrite Nat2Z.inj_succ, Z2Nat.id by apply Z.log2_nonneg.
    pose proof (Z.log2_spec z Hz) as [_ Hlog].
    apply Z.lt_le_trans with (2 ^ Z.succ (Z.log2 z)); [assumption|].
    apply Z.pow_le_mono_l. lia. }
  destruct (digits_loop_spec _ z "" Hfuel) as (k & ds & _ & _ & Hlo & Hhi & _).
  exists (Z.of_nat (S k)). split; [lia|]. split; [|assumption].
  replace (Z.of_nat (S k) - 1) with (Z.of_nat k) by lia. auto.
Qed.

Lemma zeros_start (n : nat) :
  match zeros n with String c _ => literal_char c | EmptyString => true end = true.
Proof. destruct n; reflexivity. Qed.

(** The decimal string of [s * 10^(n-k)], [s] of [k] digits, converts to
    the Number nearest to that value. *)
Lemma Number_layout (s n k : Z) :
  1 <= k -> 10 ^ (k - 1) <= s < 10 ^ k ->
  Number (layout s n k) = make_float false s (n - k).
Proof.
  intros Hk Hs.
  destruct (digits_spec s k Hk Hs) as [Hlen Hval].
  assert (Hpos : 0 < s).
  { assert (0 < 10 ^ (k - 1)) by (apply Z.pow_pos_nonneg; lia). lia. }
  pose proof (layout_no_space s n k) as Hsp.
  pose proof (digits_all s) as Hds.
  unfold layout in *. set (ds := digits s) in *.
  assert (Hne : ds <> "") by (apply length_pos_nonempty; lia).
  destruct ((k <=? n) && (n <=? 21)) eqn:HA.
  { (* the digits and zeros *)
    apply andb_prop in HA. destruct HA as [H1 H2]. apply Z.leb_le in H1, H2.
    rewrite Number_unsigned
      by (assumption || apply unsigned_start_app; auto using zeros_start).
    rewrite read_decimal_integer
      by (rewrite ?all_app, ?string_length_app, ?Hds, ?zeros_all; (reflexivity || lia)).
    rewrite decimal_value_app, decimal_value_zeros, Hval, Z2Nat.id by lia.
    rewrite Z.mul_0_l, Z.add_0_l. now apply make_float_scale; lia. }
  destruct ((0 <? n) && (n <=? 21)) eqn:HB.
  { (* a point inside the digits *)
    apply andb_prop in HB. destruct HB as [H1 H2]. apply Z.ltb_lt in H1. apply Z.leb_le in H2.
    apply andb_false_iff in HA. destruct HA as [HA|HA]; [apply Z.leb_gt in HA|lia].
    assert (Htake : String.length (JsString.take (Z.to_nat n) ds) = Z.to_nat n)
      by (apply take_length; lia).
    rewrite Number_unsigned; [|assumption|].
    2:{ apply unsigned_start_app; [now apply all_take| |reflexivity].
        apply length_pos_nonempty. lia. }
    rewrite read_decimal_fraction by (auto using all_take, all_drop; lia).
    rewrite <- decimal_value_app, take_drop, Hval, drop_length.
    f_equal; lia. }
  destruct ((-6 <? n) && (n <=? 0)) eqn:HC.
  { (* zeros after the point *)
    apply andb_prop in HC. destruct HC as [H1 H2]. apply Z.ltb_lt in H1. apply Z.leb_le in H2.
    change ("0." ++ zeros (Z.to_nat (- n)) ++ ds)
      with ("0" ++ "." ++ zeros (Z.to_nat (- n)) ++ ds) in *.
    rewrite Number_unsigned by (assumption || reflexivity).
    rewrite read_decimal_fraction
      by (rewrite ?all_app, ?Hds, ?zeros_all; (reflexivity || simpl; lia)).
    rewrite decimal_value_app, decimal_value_zeros, Hval, string_length_app, zeros_length.
    cbn [decimal_value]. change (digit_value "0") with 0.
    f_equal; lia. }
  (* an exponent *)
  assert (Hn : n <= -6 \/ 22 <= n).
  { apply andb_false_iff in HB, HC.
    destruct HB as [HB|HB], HC as [HC|HC];
      rewrite ?Z.ltb_ge, ?Z.leb_gt in *; lia. }
  destruct (pow10_bracket (Z.abs (n - 1)) ltac:(lia)) as (k' & Hk' & He).
  pose proof (read_exponent_signed (n - 1 <? 0) (Z.abs (n - 1)) k' Hk' He) as Hex.
  assert (Hexp : (if n - 1 <? 0 then - Z.abs (n - 1) else Z.abs (n - 1)) = n - 1)
    by (destruct (Z.ltb_spec (n - 1) 0); lia).
  rewrite Hexp in Hex.
  set (exponent := (if n - 1 <? 0 then "-" else "+") ++ digits (Z.abs (n - 1))) in *.
  change ("e" ++ exponent) with (String "e" exponent) in *.
  destruct (Z.eqb_spec k 1) as [->|Hk1].
  - rewrite Number_unsigned by (assumption || apply unsigned_start_app; auto).
    rewrite (read_decimal_exponent ds exponent (n - 1)) by (assumption || lia).
    rewrite Hval. f_equal; lia.
  - assert (Htake : String.length (JsString.take 1 ds) = 1%nat)
      by (apply take_length; lia).
    rewrite Number_unsigned; [|assumption|].
    2:{ apply unsigned_start_app; [now apply all_take| |reflexivity].
        apply length_pos_nonempty. lia. }
    rewrite (read_decimal_scientific _ _ exponent (n - 1))
      by (auto using all_take, all_drop; lia).
    rewrite <- decimal_value_app, take_drop, Hval, drop_length.
    f_equal; lia.
Qed.

(** ** The decimal exponent *)

Lemma below_pow10_spec (num den n c : Z) :
  0 < den -> 0 <= c -> 0 <= c + n ->
  below_pow10 num den n = (num * 10 ^ c <? 10 ^ (c + n) * den).
Proof.
  intros Hden Hc Hcn. unfold below_pow10.
  assert (Hpc : 0 < 10 ^ c) by (apply Z.pow_pos_nonneg; lia).
  destruct (Z.leb_spec 0 n) as [Hn|Hn].
  - rewrite Z.pow_add_r by lia.
    destruct (Z.ltb_spec num (10 ^ n * den)), (Z.ltb_spec (num * 10 ^ c) (10 ^ c * 10 ^ n * den));
      try reflexivity; exfalso; nia.
  - assert (Hpn : 0 < 10 ^ (c + n)) by (apply Z.pow_pos_nonneg; lia).
    replace (10 ^ c) with (10 ^ (c + n) * 10 ^ (- n))
      by (rewrite <- Z.pow_add_r by lia; f_equal; lia).
    destruct (Z.ltb_spec (num * 10 ^ (- n)) den),
             (Z.ltb_spec (num * (10 ^ (c + n) * 10 ^ (- n))) (10 ^ (c + n) * den));
      try reflexivity; exfalso; nia.
Qed.

Lemma nth_powers_of_ten (n k : nat) (acc : Z) :
  (k < n)%nat -> nth k (powers_of_ten n acc) 0 = acc * 10 ^ Z.of_nat k.
Proof.
  revert k acc; induction n as [|n IH]; intros k acc Hk; [lia|].
  destruct k as [|k]; cbn [powers_of_ten nth].
  - simpl. lia.
  - rewrite IH by lia. rewrite Nat2Z.inj_succ, Z.pow_succ_r by lia. ring.
Qed.

Lemma estimate_range_ok (l : Z) :
  -1076 <= l <= 51 ->
  let est := (if 0 <=? l then l * 30102 / 100000 else l * 30103 / 100000) - 1 in
  10 ^ (est + 325) * 2 ^ 1075 <= 2 ^ (l + 1076) * 10 ^ 326
  /\ 2 ^ (l + 1077) * 10 ^ 326 <= 10 ^ (est + 333) * 2 ^ 1075.
Proof.
  intros Hl est.
  assert (Hest : -325 <= est <= 20).
  { unfold est. clear est. destruct (0 <=? l) eqn:E;
      [apply Z.leb_le in E | apply Z.leb_gt in E]; Z.div_mod_to_equations; lia. }
  assert (H : forallb (estimate_ok (powers_of_ten 360 1)) estimate_range = true)
    by (vm_compute; reflexivity).
  rewrite forallb_forall in H.
  assert (Hin : In l estimate_range).
  { unfold estimate_range.
    replace l with (Z.of_nat (Z.to_nat (l + 1076)) - 1076) by lia.
    apply (in_map (fun i => Z.of_nat i - 1076)), in_seq. lia. }
  specialize (H l Hin). unfold estimate_ok in H. cbv zeta in H. fold est in H.
  rewrite !nth_powers_of_ten in H by lia.
  rewrite !Z2Nat.id, !Z.mul_1_l in H by lia.
  apply andb_prop in H. destruct H as [H1 H2]. apply Z.leb_le in H1, H2.
  rewrite !Z.shiftl_mul_pow2 in H1, H2 by lia.
  rewrite (Z.mul_comm (10 ^ 326)) in H1, H2. now split.
Qed.

Lemma magnitude_loop_spec (fuel : nat) (num den n0 : Z) :
  below_pow10 num den (n0 - 1) = false ->
  below_pow10 num den (n0 + Z.of_nat fuel - 1) = true ->
  let n := magnitude_loop fuel num den n0 in
  below_pow10 num den n = true /\ below_pow10 num den (n - 1) = false.
Proof.
  revert n0; induction fuel as [|fuel IH]; intros n0 Hlo Hhi; cbn zeta.
  - replace (n0 + Z.of_nat 0 - 1) with (n0 - 1) in Hhi by lia. congruence.
  - cbn [magnitude_loop]. destruct (below_pow10 num den n0) eqn:Hb; [now split|].
    apply IH.
    + now replace (n0 + 1 - 1) with n0 by lia.
    + now replace (n0 + 1 + Z.of_nat fuel - 1) with (n0 + Z.of_nat (S fuel) - 1) by lia.
Qed.

Lemma scaled_bounds (num A A' J L1 L2 E1 E2 P T : Z) :
  0 < P -> 0 < T -> 0 < J -> A <= num < A' ->
  L1 * J = A * P -> L2 * J = A' * P ->
  E1 * P <= L1 * T -> L2 * T <= E2 * P ->
  E1 * J <= num * T /\ num * T < E2 * J.
Proof.
  intros HP HT HJ [Hlo Hhi] HL1 HL2 H1 H2. split.
  - apply (Z.mul_le_mono_pos_r _ _ P HP).
    apply Z.le_trans with (L1 * T * J).
    + replace (E1 * J * P) with (E1 * P * J) by ring.
      apply Z.mul_le_mono_nonneg_r; lia.
    + replace (L1 * T * J) with (A * P * T) by (rewrite <- HL1; ring).
      replace (num * T * P) with (num * P * T) by ring.
      apply Z.mul_le_mono_nonneg_r; [lia|].
      apply Z.mul_le_mono_nonneg_r; lia.
  - apply (Z.mul_lt_mono_pos_r P _ _ HP).
    apply Z.lt_le_trans with (L2 * T * J).
    + replace (L2 * T * J) with (A' * P * T) by (rewrite <- HL2; ring).
      replace (num * T * P) with (num * P * T) by ring.
      apply Z.mul_lt_mono_pos_r; [assumption|].
      apply Z.mul_lt_mono_pos_r; assumption.
    + replace (E2 * J * P) with (E2 * P * J) by ring.
      apply Z.mul_le_mono_nonneg_r; lia.
Qed.

(** The decimal exponent found for [num / 2^j]. *)
Lemma magnitude_spec (num j : Z) :
  0 < num -> 0 <= j -> -1076 <= Z.log2 num - j - 1 <= 51 ->
  let n := magnitude_loop 8 num (2 ^ j) (magnitude_estimate num (2 ^ j)) in
  below_pow10 num (2 ^ j) n = true /\ below_pow10 num (2 ^ j) (n - 1) = false.
Proof.
  intros Hnum Hj Hl.
  assert (Hden : 0 < 2 ^ j) by (apply Z.pow_pos_nonneg; lia).
  assert (HP : 0 < 2 ^ 1075) by (apply Z.pow_pos_nonneg; lia).
  assert (HT : 0 < 10 ^ 326) by (apply Z.pow_pos_nonneg; lia).
  unfold magnitude_estimate. rewrite Z.log2_pow2 by assumption.
  pose proof (Z.log2_spec num Hnum) as Ha.
  assert (Ha0 : 0 <= Z.log2 num) by apply Z.log2_nonneg.
  set (a := Z.log2 num) in *. set (l := a - j - 1) in *.
  set (est := (if 0 <=? l then l * 30102 / 100000 else l * 30103 / 100000) - 1).
  assert (Hest : -325 <= est <= 20).
  { unfold est. clearbody l. clear - Hl. destruct (0 <=? l) eqn:E;
      [apply Z.leb_le in E | apply Z.leb_gt in E]; Z.div_mod_to_equations; lia. }
  assert (HL1 : 2 ^ (l + 1076) * 2 ^ j = 2 ^ a * 2 ^ 1075).
  { clear HP HT. rewrite <- !Z.pow_add_r by lia. f_equal. lia. }
  assert (HL2 : 2 ^ (l + 1077) * 2 ^ j = 2 ^ Z.succ a * 2 ^ 1075).
  { clear HP HT HL1. rewrite <- !Z.pow_add_r by lia. f_equal. lia. }
  destruct (estimate_range_ok _ Hl) as [H1 H2]. fold est in H1, H2.
  destruct (scaled_bounds num _ _ _ _ _ _ _ _ _ HP HT Hden Ha HL1 HL2 H1 H2) as [B1 B2].
  assert (C1 : 0 <= 326 + (est - 1)) by (clear - Hest; lia).
  assert (C2 : 0 <= 326 + (est + Z.of_nat 8 - 1)) by (clear - Hest; lia).
  assert (C0 : 0 <= 326) by (clear; lia).
  apply magnitude_loop_spec.
  - rewrite (below_pow10_spec num (2 ^ j) (est - 1) 326 Hden C0 C1).
    apply Z.ltb_ge. replace (326 + (est - 1)) with (est + 325) by (clear; lia).
    exact B1.
  - rewrite (below_pow10_spec num (2 ^ j) (est + Z.of_nat 8 - 1) 326 Hden C0 C2).
    apply Z.ltb_lt. replace (326 + (est + Z.of_nat 8 - 1)) with (est + 333) by (clear; lia).
    exact B2.
Qed.

(** ** The shortest decimal that converts back *)

(** At the decimal exponent [n], the first [k] digits of [num / den] are
    an integer of [k] digits. *)
Lemma first_digits_bounds (num den n k : Z) :
  0 < den -> 1 <= k ->
  below_pow10 num den n = true -> below_pow10 num den (n - 1) = false ->
  let shift := k - n in
  let p := if 0 <=? shift then num * 10 ^ shift else num in
  let q := if 0 <=? shift then den else den * 10 ^ (- shift) in
  10 ^ (k - 1) <= p / q < 10 ^ k.
Proof.
  intros Hden Hk Hhi Hlo shift p q.
  destruct (Z.leb_spec 0 shift) as [Hs|Hs]; subst p q.
  - rewrite (below_pow10_spec num den n shift) in Hhi by lia.
    rewrite (below_pow10_spec num den (n - 1) shift) in Hlo by lia.
    apply Z.ltb_lt in Hhi. apply Z.ltb_ge in Hlo.
    replace (shift + n) with k in Hhi by lia.
    replace (shift + (n - 1)) with (k - 1) in Hlo by lia.
    split.
    + apply Z.div_le_lower_bound; lia.
    + apply Z.div_lt_upper_bound; lia.
  - unfold below_pow10 in Hhi, Hlo.
    replace (0 <=? n) with true in Hhi by (symmetry; apply Z.leb_le; lia).
    replace (0 <=? n - 1) with true in Hlo by (symmetry; apply Z.leb_le; lia).
    apply Z.ltb_lt in Hhi. apply Z.ltb_ge in Hlo.
    assert (Hp : 0 < 10 ^ (- shift)) by (apply Z.pow_pos_nonneg; lia).
    assert (E1 : 10 ^ (n - 1) = 10 ^ (k - 1) * 10 ^ (- shift)).
    { rewrite <- Z.pow_add_r by lia. f_equal. lia. }
    assert (E2 : 10 ^ n = 10 ^ k * 10 ^ (- shift)).
    { rewrite <- Z.pow_add_r by lia. f_equal. lia. }
    rewrite E1 in Hlo. rewrite E2 in Hhi.
    split.
    + apply Z.div_le_lower_bound; [lia|]. lia.
    + apply Z.div_lt_upper_bound; [lia|]. lia.
Qed.

(** What [shortest_at] returns converts back to [x] and has [k] digits. *)
Lemma shortest_at_sound (x : number) (num den n k s n' : Z) :
  0 < den -> 1 <= k ->
  below_pow10 num den n = true -> below_pow10 num den (n - 1) = false ->
  shortest_at x num den n k = Some (s, n') ->
  make_float false s (n' - k) = x /\ 10 ^ (k - 1) <= s < 10 ^ k.
Proof.
  intros Hden Hk Hhi Hlo.
  pose proof (first_digits_bounds num den n k Hden Hk Hhi Hlo) as Hb.
  cbv zeta in Hb. unfold shortest_at.
  set (p := if 0 <=? k - n then num * 10 ^ (k - n) else num) in *.
  set (q := if 0 <=? k - n then den else den * 10 ^ (- (k - n))) in *.
  set (lo := p / q) in *.
  assert (Hpow : 10 ^ (k - 1) < 10 ^ k) by (apply Z.pow_lt_mono_r; lia).
  assert (Hcand : forall c : Z * Z,
            c = (if lo + 1 =? 10 ^ k then (10 ^ (k - 1), n + 1) else (lo + 1, n)) ->
            10 ^ (k - 1) <= fst c < 10 ^ k).
  { intros c ->. destruct (Z.eqb_spec (lo + 1) (10 ^ k)); cbn [fst]; lia. }
  specialize (Hcand _ eq_refl).
  set (cand := if lo + 1 =? 10 ^ k then (10 ^ (k - 1), n + 1) else (lo + 1, n)) in *.
  destruct (PrimFloat.Leibniz.eqb (make_float false lo (n - k)) x) eqn:Hlo_ok;
    destruct (negb (p mod q =? 0)
              && PrimFloat.Leibniz.eqb (make_float false (fst cand) (snd cand - k)) x) eqn:Hhi_ok;
    cbn [andb]; try discriminate.
  - apply float_eqb_eq in Hlo_ok.
    apply andb_prop in Hhi_ok. destruct Hhi_ok as [_ Hhi_ok]. apply float_eqb_eq in Hhi_ok.
    destruct ((q <? 2 * (p mod q)) || (q =? 2 * (p mod q)) && Z.odd lo).
    + destruct cand as [s0 n0]. intros [= <- <-]. now split.
    + intros [= <- <-]. now split.
  - apply float_eqb_eq in Hlo_ok. intros [= <- <-]. now split.
  - apply andb_prop in Hhi_ok. destruct Hhi_ok as [_ Hhi_ok]. apply float_eqb_eq in Hhi_ok.
    destruct cand as [s0 n0]. intros [= <- <-]. now split.
Qed.

(** From the number of digits of the exact expansion on, [shortest_at]
    finds a decimal. *)
Lemma shortest_at_exact (x : number) (m : positive) (e n k : Z) :
  Prim2SF x = S754_finite false m e -> e < 0 -> - e <= k - n ->
  shortest_at x (Zpos m) (2 ^ (- e)) n k <> None.
Proof.
  intros Hx He Hk. unfold shortest_at.
  replace (0 <=? k - n) with true by (symmetry; apply Z.leb_le; lia).
  set (shift := k - n) in *.
  assert (H5 : 0 < 5 ^ shift) by (apply Z.pow_pos_nonneg; lia).
  assert (H2 : 0 < 2 ^ (shift + e)) by (apply Z.pow_pos_nonneg; lia).
  assert (Hden : 0 < 2 ^ (- e)) by (apply Z.pow_pos_nonneg; lia).
  assert (Hp : Zpos m * 10 ^ shift = Zpos m * 5 ^ shift * 2 ^ (shift + e) * 2 ^ (- e)).
  { change 10 with (2 * 5). rewrite Z.pow_mul_l.
    replace (2 ^ shift) with (2 ^ (shift + e) * 2 ^ (- e))
      by (rewrite <- Z.pow_add_r by lia; f_equal; lia).
    ring. }
  rewrite Hp, Z.div_mul, Z.mod_mul by lia.
  set (lo := Zpos m * 5 ^ shift * 2 ^ (shift + e)) in *.
  assert (Hlo : 0 < lo) by (unfold lo; apply Z.mul_pos_pos; [apply Z.mul_pos_pos|]; lia).
  assert (Hback : make_float false lo (n - k) = x).
  { destruct lo as [|l|l] eqn:E; try lia.
    replace (n - k) with (- shift) by (unfold shift; lia).
    apply (make_float_exact x m e); try assumption; [lia|].
    rewrite <- Hp. reflexivity. }
  rewrite Hback.
  assert (Hrefl : PrimFloat.Leibniz.eqb x x = true) by now apply FloatAxioms.Leibniz.eqb_spec.
  rewrite Hrefl. cbn [Z.eqb negb andb]. discriminate.
Qed.

Lemma shortest_loop_spec (x : number) (m : positive) (e n : Z)
    (fuel : nat) (k s n' k' : Z) :
  Prim2SF x = S754_finite false m e -> e < 0 ->
  below_pow10 (Zpos m) (2 ^ (- e)) n = true ->
  below_pow10 (Zpos m) (2 ^ (- e)) (n - 1) = false ->
  1 <= k -> (0 < fuel)%nat -> - e <= k + Z.of_nat fuel - 1 - n ->
  shortest_loop fuel x (Zpos m) (2 ^ (- e)) n k = (s, n', k') ->
  make_float false s (n' - k') = x /\ 10 ^ (k' - 1) <= s < 10 ^ k' /\ 1 <= k'.
Proof.
  intros Hx He Hhi Hlo.
  assert (Hden : 0 < 2 ^ (- e)) by (apply Z.pow_pos_nonneg; lia).
  revert k; induction fuel as [|fuel IH]; intros k Hk Hfuel Hlast; [lia|].
  cbn [shortest_loop].
  destruct (shortest_at x (Zpos m) (2 ^ (- e)) n k) as [[s0 n0]|] eqn:Hat.
  - intros [= <- <- <-].
    destruct (shortest_at_sound _ _ _ _ _ _ _ Hden Hk Hhi Hlo Hat). auto.
  - destruct fuel as [|fuel].
    + exfalso. apply (shortest_at_exact x m e n k Hx He); [lia | assumption].
    + apply IH; lia.
Qed.

Lemma valid_binary_bounds (x : number) (s : bool) (m : positive) (e : Z) :
  Prim2SF x = S754_finite s m e ->
  Zpos (digits2_pos m) <= 53 /\ -1074 <= e.
Proof.
  intros Hx. pose proof (Prim2SF_valid x) as Hv. rewrite Hx in Hv.
  cbn [valid_binary] in Hv. unfold SpecFloat.bounded, canonical_mantissa in Hv.
  apply andb_prop in Hv. destruct Hv as [Hc _]. apply Z.eqb_eq in Hc.
  unfold fexp, SpecFloat.emin, prec, emax in Hc. lia.
Qed.

(** A positive Number with a fraction is converted back from its decimal
    string. *)
Lemma fraction_prints_back (x : number) (m : positive) (e : Z) :
  Prim2SF x = S754_finite false m e -> e < 0 ->
  Number (numberToString x) = x.
Proof.
  intros Hx He.
  destruct (valid_binary_bounds x false m e Hx) as [Hd Hemin].
  pose proof (digits2_pos_bound m) as Hm.
  assert (Hlog : Z.log2 (Zpos m) = Zpos (digits2_pos m) - 1).
  { apply Z.log2_unique; [lia|].
    now replace (Z.succ (Zpos (digits2_pos m) - 1)) with (Zpos (digits2_pos m)) by lia. }
  assert (Habs : abs x = x).
  { apply Prim2SF_inj. now rewrite abs_spec, Hx. }
  unfold numberToString. rewrite Hx, Habs. cbn [String.append].
  unfold positive_to_string.
  replace (0 <=? e) with false by (symmetry; apply Z.leb_gt; lia).
  destruct (magnitude_spec (Zpos m) (- e)) as [Hhi Hlo]; [lia | lia | lia |].
  set (n := magnitude_loop 8 (Zpos m) (2 ^ (- e)) (magnitude_estimate (Zpos m) (2 ^ (- e)))) in *.
  rewrite Z.log2_pow2 by lia.
  destruct (shortest_loop _ x (Zpos m) (2 ^ (- e)) n 1) as [[s n'] k] eqn:Hloop.
  apply (shortest_loop_spec x m e n) in Hloop; try assumption; try lia.
  destruct Hloop as (Hback & Hs & Hk).
  now rewrite Number_layout.
Qed.

(** ** Serialising and parsing back *)

Lemma prefix_app (p x : string) : String.prefix p (p ++ x) = true.
Proof.
  induction p as [|c p IH]; simpl; [now destruct x|].
  destruct (ascii_dec c c); [assumption | congruence].
Qed.

Lemma indexOf_app (p x : string) : JsString.indexOf (p ++ x) p = 0.
Proof.
  unfold JsString.indexOf.
  destruct (p ++ x) as [|c s] eqn:E.
  - destruct p; [reflexivity | discriminate].
  - cbn [String.index]. now rewrite <- E, prefix_app.
Qed.

Lemma rgba_not_named (x : string) :
  RegExp.exec NAMED_COLOR_RE_ ("rgba(" ++ x) = false.
Proof. rewrite NAMED_COLOR_RE_exec. reflexivity. Qed.

Lemma fromResolved_rgba (x : string) :
  fromResolved_ ("rgba(" ++ x ++ ")")
  = Ok (normalize (map Number (JsString.split "," x)) None).
Proof.
  unfold fromResolved_. rewrite HEX_COLOR_RE_exec.
  change (hex_shape ("rgba(" ++ x ++ ")")) with false.
  rewrite indexOf_app. cbn [Z.eqb].
  change 5 with (JsString.length "rgba(").
  now rewrite slice_inner.
Qed.

(** An integer from 0 to 255 is converted back from its decimal string. *)
Lemma byte_string (k : Z) :
  0 <= k <= 255 -> Number (numberToString (of_int k)) = of_int k.
Proof.
  intros Hk. destruct k as [|p|p]; try lia.
  - vm_compute. reflexivity.
  - pose proof (Prim2SF_of_int_pos p ltac:(lia)) as Hsf. unfold sf_of_pos in Hsf.
    apply (fraction_prints_back _ _ _ Hsf).
    pose proof (digits2_pos_small p ltac:(lia)). lia.
Qed.

Lemma byte_is_integer (k : Z) :
  0 <= k <= 255 -> neq (of_int k) (bitor0 (of_int k)) = false.
Proof.
  intros Hk. apply negb_true_iff. revert k Hk.
  apply (bytes_forall (fun k => negb (neq (of_int k) (bitor0 (of_int k))))).
  vm_compute. reflexivity.
Qed.

(** What [toString] prints for a colour of three integers in 0..255. *)
Lemma toString_bytes (r g b : Z) (a : number) :
  0 <= r <= 255 -> 0 <= g <= 255 -> 0 <= b <= 255 ->
  toString [of_int r; of_int g; of_int b; a]
  = "rgba(" ++ (numberToString (of_int r) ++ "," ++ numberToString (of_int g) ++ ","
                ++ numberToString (of_int b) ++ "," ++ numberToString a) ++ ")".
Proof.
  intros Hr Hg Hb. unfold toString. cbn [JsArray.at_ nth nth_error].
  rewrite !byte_is_integer by assumption.
  now rewrite !string_app_assoc.
Qed.

(** Parsing a string of the form [rgba(...)]: no name is resolved, and the
    fields between the parentheses are converted and normalised. *)
Lemma parse_rgba (fromNamed : string -> string) (x : string) :
  fromStringInternal_ fromNamed ("rgba(" ++ x ++ ")")
  = ([], Ok (normalize (map Number (JsString.split "," x)) None)).
Proof.
  unfold fromStringInternal_. now rewrite rgba_not_named, fromResolved_rgba.
Qed.

(** Four pieces without a comma, joined by commas, split into themselves. *)
Lemma split_four (p q r s : string) :
  JsString.all (other_than ",") p = true ->
  JsString.all (other_than ",") q = true ->
  JsString.all (other_than ",") r = true ->
  JsString.all (other_than ",") s = true ->
  JsString.split "," (p ++ "," ++ q ++ "," ++ r ++ "," ++ s) = [p; q; r; s].
Proof.
  intros Hp Hq Hr Hs.
  change (fun x : string => "," ++ x) with (String ","%char).
  change (String.append ",") with (String ","%char).
  now rewrite !split_app, split_without.
Qed.

(** [normalize] leaves three integers in 0..255 and an alpha in 0..1 as they
    are. *)
Lemma normalize_in_range (r g b : Z) (a : number) :
  0 <= r <= 255 -> 0 <= g <= 255 -> 0 <= b <= 255 ->
  (0 <=? a)%float = true -> (a <=? 1)%float = true -> a <> (-0)%float ->
  normalize [of_int r; of_int g; of_int b; a] None = [of_int r; of_int g; of_int b; a].
Proof.
  intros Hr Hg Hb Ha0 Ha1 Hnz.
  rewrite normalize_fields. cbn [JsArray.at_ nth].
  now rewrite !channel_of_byte, clamp_unit_id.
Qed.

(** The alphas that the hex branch produces, [k / 255] for a byte [k], lie
    in 0..1, and none is the negative zero. *)
Lemma byte_alpha_range (k : Z) :
  0 <= k <= 255 ->
  (0 <=? of_int k / 255)%float = true /\ (of_int k / 255 <=? 1)%float = true
  /\ (of_int k / 255)%float <> (-0)%float.
Proof.
  intros Hk.
  assert (H : (fun k => (0 <=? of_int k / 255)%float
                        && (of_int k / 255 <=? 1)%float
                        && negb (PrimFloat.Leibniz.eqb (of_int k / 255) (-0))) k = true).
  { revert k Hk. apply bytes_forall. vm_compute. reflexivity. }
  cbv beta in H. apply andb_prop in H. destruct H as [H H3].
  apply andb_prop in H. destruct H as [H1 H2].
  repeat split; try assumption.
  intros E. rewrite E in H3.
  rewrite (proj2 (FloatAxioms.Leibniz.eqb_spec _ _) eq_refl) in H3. discriminate H3.
Qed.

(** The Numbers from 0 to 1: the zeros, and positive Numbers with a
    negative binary exponent. *)
Lemma unit_cases (a : number) :
  (0 <=? a)%float = true -> (a <=? 1)%float = true ->
  a = 0%float \/ a = (-0)%float
  \/ exists (m : positive) (e : Z), Prim2SF a = S754_finite false m e /\ e < 0.
Proof.
  intros H0 H1. rewrite FloatAxioms.leb_spec in H0, H1.
  change (Prim2SF 0) with (S754_zero false) in H0.
  change (Prim2SF 1) with (S754_finite false 4503599627370496 (-52)) in H1.
  destruct (Prim2SF a) as [s|s| |s m e] eqn:Ha.
  - rewrite <- (SF2Prim_Prim2SF a), Ha.
    destruct s; [right; left | left]; reflexivity.
  - destruct s; discriminate.
  - discriminate.
  - destruct s; [discriminate|]. right. right. exists m, e. split; [reflexivity|].
    unfold SFleb, SFcompare in H1.
    destruct (Z.compare_spec e (-52)) as [E|E|E]; try lia; discriminate.
Qed.

(** An alpha in 0..1 is converted back from its decimal string; [-0] is
    printed as [0]. *)
Lemma unit_prints_back (a : number) :
  (0 <=? a)%float = true -> (a <=? 1)%float = true -> a <> (-0)%float ->
  Number (numberToString a) = a.
Proof.
  intros H0 H1 Hnz.
  destruct (unit_cases a H0 H1) as [->|[->|(m & e & Ha & He)]].
  - vm_compute. reflexivity.
  - congruence.
  - exact (fraction_prints_back a m e Ha He).
Qed.

Lemma neg_zero_prints_back : Number (numberToString (-0)) = 0%float.
Proof. vm_compute. reflexivity. Qed.

(** Two Numbers that are [==] are the same Number or two zeros. *)
Lemma eqb_cases (x y : number) :
  (x =? y)%float = true ->
  x = y \/ exists sx sy, Prim2SF x = S754_zero sx /\ Prim2SF y = S754_zero sy.
Proof.
  rewrite FloatAxioms.eqb_spec. unfold SFeqb. intros H.
  destruct (Prim2SF x) as [sx|sx| |sx mx ex] eqn:Ex,
           (Prim2SF y) as [sy|sy| |sy my ey] eqn:Ey;
    cbn [SFcompare] in H; try discriminate H;
    try (destruct sx; discriminate H); try (destruct sy; discriminate H).
  - right. now exists sx, sy.
  - left. assert (sx = sy) as -> by (destruct sx, sy; congruence).
    rewrite <- Ey in Ex. now apply Prim2SF_inj in Ex.
  - left. assert (sx = sy) as -> by (destruct sx, sy; congruence).
    assert (ex = ey /\ mx = my) as [-> ->].
    { destruct sy; destruct (Z.compare_spec ex ey) as [E|E|E]; try discriminate H;
        (split; [assumption|]); apply Pos.compare_eq;
        unfold Pos.compare; destruct (Pos.compare_cont Eq mx my);
        (reflexivity || discriminate H). }
    rewrite <- Ey in Ex. now apply Prim2SF_inj in Ex.
Qed.


(** A Number that is [==] to an integer from 0 to 255 is that integer, or
    the negative zero. *)
Lemma eqb_byte_cases (x : number) (k : Z) :
  0 <= k <= 255 -> (x =? of_int k)%float = true ->
  x = of_int k \/ (x = (-0)%float /\ k = 0).
Proof.
  intros Hk [->|(sx & sy & Ex & Ey)]%eqb_cases; [now left|].
  destruct k as [|p|p]; try lia.
  - rewrite <- (SF2Prim_Prim2SF x), Ex. destruct sx; [right | left]; split; reflexivity.
  - rewrite Prim2SF_of_int_pos in Ey by lia. discriminate Ey.
Qed.

(** Channels that are [==] to integers from 0 to 255 are printed as the
    integers. *)
Lemma toString_bytes_eqb (r g b : Z) (xr xg xb a : number) :
  0 <= r <= 255 -> 0 <= g <= 255 -> 0 <= b <= 255 ->
  (xr =? of_int r)%float = true -> (xg =? of_int g)%float = true ->
  (xb =? of_int b)%float = true ->
  toString [xr; xg; xb; a] = toString [of_int r; of_int g; of_int b; a].
Proof.
  intros Hr Hg Hb Er Eg Eb.
  assert (Hch : forall (x : number) (k : Z), 0 <= k <= 255 -> (x =? of_int k)%float = true ->
            numberToString (if neq x (bitor0 x) then bitor0 (x + 0.5) else x)
            = numberToString (if neq (of_int k) (bitor0 (of_int k))
                              then bitor0 (of_int k + 0.5) else of_int k)).
  { intros x k Hk E. destruct (eqb_byte_cases x k Hk E) as [->|[-> ->]]; reflexivity. }
  unfold toString. cbn [JsArray.at_ nth nth_error]. cbv zeta.
  now rewrite (Hch xr r Hr Er), (Hch xg g Hg Eg), (Hch xb b Hb Eb).
Qed.

(** C4, amended: for channels that are integers [r], [g], [b] in 0..255
    and an alpha [a] in 0..1, parsing the serialised colour gives the colour
    back: [toString] emits the [rgba(...)] form, the parser takes the rgba
    branch, the decimal string of each field converts back to the field, and
    [normalize] changes none.  The channels come back as the integers, to
    which the given ones are equal under [==] (a channel [-0] comes back as
    [+0]); the alpha comes back as [a] itself, except for [-0], which is
    printed as [0] and comes back as [+0], equal to it under [==]. *)
Theorem parse_toString_roundtrip (fromNamed : string -> string)
    (r g b : Z) (xr xg xb a : number) :
  0 <= r <= 255 -> 0 <= g <= 255 -> 0 <= b <= 255 ->
  (xr =? of_int r)%float = true -> (xg =? of_int g)%float = true ->
  (xb =? of_int b)%float = true ->
  (0 <=? a)%float = true -> (a <=? 1)%float = true ->
  exists a' : number,
    fromStringInternal_ fromNamed (toString [xr; xg; xb; a])
    = ([], Ok [of_int r; of_int g; of_int b; a'])
    /\ (a' =? a)%float = true
    /\ (a <> (-0)%float -> a' = a).
Proof.
  intros Hr Hg Hb Er Eg Eb Ha0 Ha1.
  (* what is printed *)
  rewrite (toString_bytes_eqb r g b) by assumption.
  rewrite toString_bytes by assumption.
  (* the rgba branch, and the four fields it finds *)
  rewrite parse_rgba.
  rewrite split_four by apply numberToString_no_comma.
  cbn [map]. rewrite !byte_string by assumption.
  destruct (PrimFloat.Leibniz.eqb a (-0)) eqn:Hz.
  - (* the negative zero comes back positive *)
    apply float_eqb_eq in Hz. subst a. exists 0%float.
    rewrite neg_zero_prints_back.
    rewrite normalize_in_range
      by first [assumption | reflexivity
               | intros H; apply (f_equal Prim2SF) in H; discriminate H].
    split; [reflexivity|]. split; [reflexivity | congruence].
  - (* any other alpha comes back as it is *)
    assert (Hnz : a <> (-0)%float).
    { intros ->. rewrite (proj2 (FloatAxioms.Leibniz.eqb_spec _ _) eq_refl) in Hz. discriminate. }
    exists a. rewrite unit_prints_back by assumption.
    (* nothing to round or clamp *)
    rewrite normalize_in_range by assumption.
    repeat split.
    destruct (leb_not_nan _ _ Ha1) as [Hnan _].
    unfold is_nan in Hnan. now apply negb_false_iff in Hnan.
Qed.

(** The colour [[255, 0, 128, 0.5]]. *)
Lemma parse_toString_roundtrip_witness :
  exists a' : number,
    fromStringInternal_ (fun _ => "") (toString [255; 0; 128; 0.5]%float)
    = ([], Ok [of_int 255; of_int 0; of_int 128; a'])
    /\ (a' =? 0.5)%float = true
    /\ (0.5%float <> (-0)%float -> a' = 0.5%float).
Proof.
  apply (parse_toString_roundtrip (fun _ => "") 255 0 128
           255%float 0%float 128%float 0.5%float);
    try lia; vm_compute; reflexivity.
Defined.

(** ** The hex branch *)

Lemma expand_hex_digit (c : ascii) :
  is_hex_digit c = true ->
  expand (String c "") = of_int (digit_value c * 16 + digit_value c).
Proof.
  destruct c as [[] [] [] [] [] [] [] []]; intros H;
    vm_compute in H; try discriminate H; vm_compute; reflexivity.
Qed.

Lemma fromHex_3 (c1 c2 c3 : ascii) :
  fromHex_ (String "#" (String c1 (String c2 (String c3 ""))))
  = [expand (String c1 ""); expand (String c2 ""); expand (String c3 ""); (255 / 255)%float].
Proof. reflexivity. Qed.

Lemma fromHex_4 (c1 c2 c3 c4 : ascii) :
  fromHex_ (String "#" (String c1 (String c2 (String c3 (String c4 "")))))
  = [expand (String c1 ""); expand (String c2 ""); expand (String c3 "");
     (expand (String c4 "") / 255)%float].
Proof. reflexivity. Qed.

Lemma hash_not_named (s : string) :
  RegExp.exec NAMED_COLOR_RE_ (String "#" s) = false.
Proof. rewrite NAMED_COLOR_RE_exec. reflexivity. Qed.

(** C5: a hex colour of one digit per channel has each digit [v] expanded
    to [v * 16 + v]. *)
Theorem short_hex_doubles_nibbles (fromNamed : string -> string) (c1 c2 c3 c4 : ascii) :
  is_hex_digit c1 = true -> is_hex_digit c2 = true ->
  is_hex_digit c3 = true -> is_hex_digit c4 = true ->
  let nibble c := of_int (digit_value c * 16 + digit_value c) in
  fromStringInternal_ fromNamed (String "#" (String c1 (String c2 (String c3 ""))))
  = ([], Ok [nibble c1; nibble c2; nibble c3; 1%float])
  /\ fromStringInternal_ fromNamed (String "#" (String c1 (String c2 (String c3 (String c4 "")))))
     = ([], Ok [nibble c1; nibble c2; nibble c3; (nibble c4 / 255)%float])
  /\ fromStringInternal_ fromNamed "#f00" = ([], Ok [255; 0; 0; 1]%float)
  /\ fromStringInternal_ fromNamed "#f00a" = ([], Ok [255; 0; 0; 170 / 255]%float).
Proof.
  intros H1 H2 H3 H4 nibble. unfold fromStringInternal_.
  rewrite !hash_not_named. unfold fromResolved_. rewrite !HEX_COLOR_RE_exec.
  cbn [hex_shape JsString.all]. rewrite H1, H2, H3, H4.
  cbn [andb existsb String.length Nat.eqb orb].
  rewrite fromHex_3, fromHex_4, !expand_hex_digit by assumption.
  repeat split; reflexivity.
Qed.

(** The digits of [#f00a]. *)
Lemma short_hex_doubles_nibbles_witness :
  fromStringInternal_ (fun _ => "") "#f00a"
  = ([], Ok [of_int 255; of_int 0; of_int 0; (of_int 170 / 255)%float]).
Proof.
  exact (proj1 (proj2 (short_hex_doubles_nibbles (fun _ => "") "f" "0" "0" "a"
                         eq_refl eq_refl eq_refl eq_refl))).
Defined.

(** C1: the hex pattern matches [#1234567], a string of seven hex digits,
    and the parser takes the hex branch on it: two digits per channel, no
    alpha, the seventh digit unread. *)
Theorem hex_branch_takes_seven_digits (fromNamed : string -> string) :
  RegExp.exec HEX_COLOR_RE_ "#1234567" = true
  /\ fromStringInternal_ fromNamed "#1234567" = ([], Ok [18; 52; 86; 1]%float).
Proof. split; vm_compute; reflexivity. Qed.

(** X1: the strings that the hex pattern matches, and the hex branch takes,
    are [#] followed by 3, 4, 6, 7 or 8 hex digits and nothing else. *)
Theorem hex_branch_accepts (s : string) :
  RegExp.exec HEX_COLOR_RE_ s = true <->
  exists ds, s = String "#" ds /\ JsString.all is_hex_digit ds = true
             /\ In (String.length ds) [3; 4; 6; 7; 8]%nat.
Proof.
  rewrite HEX_COLOR_RE_exec. unfold hex_shape. split.
  - destruct s as [|c ds]; [discriminate|].
    destruct (Ascii.eqb_spec c "#") as [->|Hne].
    + intros [Hd Hl]%andb_prop. exists ds. repeat split; [assumption|].
      apply existsb_exists in Hl. destruct Hl as (n & Hin & Heq).
      apply Nat.eqb_eq in Heq. now rewrite Heq.
    + destruct c as [[] [] [] [] [] [] [] []]; try discriminate. congruence.
  - intros (ds & -> & Hd & Hl). rewrite Hd. cbn [andb].
    apply existsb_exists. exists (String.length ds). split; [assumption|apply Nat.eqb_refl].
Qed.

(** C2, amended: [#12345], of five hex digits, fails with assertion 14;
    [rgb(1,2)], of two fields, does not fail: the rgb branch appends 1 to the
    fields that it finds and normalises them, to [[1, 2, 1, NaN]]. *)
Theorem five_digits_fail_two_fields_parse (fromNamed : string -> string) :
  fromStringInternal_ fromNamed "#12345" = ([], Throw (AssertionError 14))
  /\ fromStringInternal_ fromNamed "rgb(1,2)" = ([], Ok [1; 2; 1; nan]%float).
Proof. split; vm_compute; reflexivity. Qed.

(** C2 as stated fails: [rgb(1,2)] does not throw. *)
Lemma rgb_two_fields_do_not_fail :
  ~ (snd (fromStringInternal_ (fun _ => "") "#12345") = Throw (AssertionError 14)
     /\ snd (fromStringInternal_ (fun _ => "") "rgb(1,2)") = Throw (AssertionError 14)).
Proof. intros [_ H]. vm_compute in H. discriminate H. Qed.

(** C8: fields out of range are clamped in parsing: [rgba(300,-10,128,2)]
    gives [[255, 0, 128, 1]], red brought down to 255, green up to 0 and
    alpha down to 1. *)
Theorem rgba_fields_are_clamped (fromNamed : string -> string) :
  fromStringInternal_ fromNamed "rgba(300,-10,128,2)" = ([], Ok [255; 0; 128; 1]%float).
Proof. vm_compute. reflexivity. Qed.

(** C10: the named-colour pattern matches the empty string, so parsing it
    calls the resolver on the empty string and returns what the branches
    return on the resolver's answer, where the branches on the empty string
    itself fail with assertion 14; a resolver that answers with an rgb
    string makes it a colour, one that answers with the empty string makes
    it fail. *)
Theorem empty_string_is_resolved (fromNamed : string -> string) :
  RegExp.exec NAMED_COLOR_RE_ "" = true
  /\ fromStringInternal_ fromNamed "" = ([Resolve ""], fromResolved_ (fromNamed ""))
  /\ fromResolved_ "" = Throw (AssertionError 14)
  /\ fromStringInternal_ (fun _ => "rgb(0, 0, 0)") "" = ([Resolve ""], Ok [0; 0; 0; 1]%float)
  /\ fromStringInternal_ (fun _ => "") "" = ([Resolve ""], Throw (AssertionError 14)).
Proof. repeat split; vm_compute; reflexivity. Qed.

(** C4 as stated fails on a channel above 255: the red that comes back
    is 255, which is not [==] to 300. *)
Lemma roundtrip_fails_above_255 :
  toString [300; 0; 0; 1]%float = "rgba(300,0,0,1)"
  /\ fromStringInternal_ (fun _ => "") (toString [300; 0; 0; 1]%float)
     = ([], Ok [255; 0; 0; 1]%float)
  /\ (255 =? 300)%float = false
  /\ snd (fromStringInternal_ (fun _ => "") (toString [300; 0; 0; 1]%float))
     <> Ok [300; 0; 0; 1]%float.
Proof.
  repeat split; try (vm_compute; reflexivity).
  intros H.
  apply (f_equal (fun r => match r with Ok (x :: _) => Prim2SF x | _ => S754_nan end)) in H.
  vm_compute in H. discriminate H.
Qed.

(** ** The cache *)

Lemma kept_from_positions {A : Type} (i : nat) (l : list A) :
  kept_from i l
  = map snd (filter (fun ix : nat * A => negb (fst ix mod 4 =? 0)%nat)
                    (combine (seq i (length l)) l)).
Proof.
  revert i; induction l as [|x l IH]; intros i; [reflexivity|].
  cbn [kept_from length seq combine filter fst].
  destruct (i mod 4 =? 0)%nat; cbn [negb map snd]; now rewrite IH.
Qed.

Lemma kept_from_In {A : Type} (i : nat) (l : list A) (x : A) :
  In x (kept_from i l) -> In x l.
Proof.
  revert i; induction l as [|y l IH]; intros i; cbn [kept_from In]; [easy|].
  destruct (i mod 4 =? 0)%nat; cbn [In]; [eauto|].
  intros [->|Hin]; eauto.
Qed.

Lemma kept_from_keys_In (i : nat) (o : list (string * Color)) (k : string) :
  In k (JsObject.keys (kept_from i o)) -> In k (JsObject.keys o).
Proof.
  unfold JsObject.keys. rewrite !in_map_iff.
  intros (kv & Hk & Hin). exists kv. eauto using kept_from_In.
Qed.

Lemma kept_from_NoDup (i : nat) (o : list (string * Color)) :
  NoDup (JsObject.keys o) -> NoDup (JsObject.keys (kept_from i o)).
Proof.
  revert i; induction o as [|[k v] o IH]; intros i Hnd; cbn [kept_from]; [constructor|].
  inversion Hnd as [|? ? Hk Ho]; subst.
  destruct (i mod 4 =? 0)%nat; [now apply IH|].
  cbn [JsObject.keys map fst]. constructor; [|now apply IH].
  intros Hin. apply Hk. eapply kept_from_keys_In, Hin.
Qed.

Lemma kept_from_length {A : Type} (i : nat) (l : list A) :
  (length (kept_from i l) <= length l)%nat.
Proof.
  revert i; induction l as [|x l IH]; intros i; cbn [kept_from length]; [lia|].
  destruct (i mod 4 =? 0)%nat; cbn [length]; specialize (IH (S i)); lia.
Qed.

Lemma kept_from_0_length {A : Type} (l : list A) :
  l <> [] -> (length (kept_from 0 l) < length l)%nat.
Proof.
  destruct l as [|x l]; [congruence|]. intros _.
  change (kept_from 0 (x :: l)) with (kept_from 1 l). cbn [length].
  pose proof (kept_from_length 1 l). lia.
Qed.

Lemma get_None_keys (o : list (string * Color)) (key : string) :
  JsObject.get o key = None <-> ~ In key (JsObject.keys o).
Proof.
  induction o as [|[k v] o IH]; simpl; [tauto|].
  destruct (String.eqb_spec k key) as [->|Hne].
  - split; [discriminate | intros H; exfalso; auto].
  - rewrite IH. intuition congruence.
Qed.

Lemma get_Some_In (o : list (string * Color)) (key : string) (v : Color) :
  JsObject.get o key = Some v -> In (key, v) o.
Proof.
  induction o as [|[k w] o IH]; simpl; [discriminate|].
  destruct (String.eqb_spec k key) as [->|Hne].
  - intros [= ->]. now left.
  - auto.
Qed.

Lemma hasOwnProperty_Ok (o : list (string * Color)) (key : string) (r : option Color) :
  JsObject.hasOwnProperty o key = Ok r <->
  JsObject.get o "hasOwnProperty" = None /\ JsObject.get o key = r.
Proof.
  unfold JsObject.hasOwnProperty.
  destruct (JsObject.get o "hasOwnProperty"); split;
    try discriminate; try (intros [H _]; discriminate H).
  - now intros [= ->].
  - now intros [_ ->].
Qed.

Lemma hasOwnProperty_Throw (o : list (string * Color)) (key : string) (e : exn) :
  JsObject.hasOwnProperty o key = Throw e <->
  e = TypeError /\ JsObject.get o "hasOwnProperty" <> None.
Proof.
  unfold JsObject.hasOwnProperty.
  destruct (JsObject.get o "hasOwnProperty"); split.
  - now intros [= <-].
  - now intros [-> _].
  - discriminate.
  - intros [_ H]. congruence.
Qed.

Lemma set_new (o : list (string * Color)) (key : string) (v : Color) :
  JsObject.get o key = None -> JsObject.set o key v = (o ++ [(key, v)])%list.
Proof.
  induction o as [|[k w] o IH]; simpl; [reflexivity|].
  destruct (String.eqb k key); [discriminate|].
  intros H. now rewrite IH.
Qed.

Lemma delete_absent (o : list (string * Color)) (key : string) :
  ~ In key (JsObject.keys o) -> JsObject.delete o key = o.
Proof.
  induction o as [|[k w] o IH]; simpl; [reflexivity|].
  intros H. destruct (String.eqb_spec k key) as [->|Hne]; [tauto|].
  simpl. f_equal. apply IH. tauto.
Qed.

Lemma delete_middle (before after : list (string * Color)) (key : string) (v : Color) :
  NoDup (JsObject.keys (before ++ (key, v) :: after)%list) ->
  JsObject.delete (before ++ (key, v) :: after)%list key = (before ++ after)%list.
Proof.
  unfold JsObject.keys. rewrite map_app. cbn [map fst]. intros Hnd.
  apply NoDup_remove in Hnd. destruct Hnd as [_ Hnotin].
  rewrite in_app_iff in Hnotin.
  unfold JsObject.delete. rewrite filter_app. cbn [filter fst].
  rewrite String.eqb_refl. cbn [negb].
  fold (JsObject.delete before key). fold (JsObject.delete after key).
  rewrite !delete_absent; tauto.
Qed.

Lemma land_3 (i : nat) : (Z.land (Z.of_nat i) 3 =? 0) = (i mod 4 =? 0)%nat.
Proof.
  change 3 with (Z.ones 2). rewrite Z.land_ones by lia.
  change (2 ^ 2) with (Z.of_nat 4). rewrite <- Nat2Z.inj_mod.
  destruct (Nat.eqb_spec (i mod 4) 0) as [->|Hne]; [reflexivity|].
  apply Z.eqb_neq. lia.
Qed.

(** The eviction loop deletes the entries at the positions divisible by 4
    and counts them off. *)
Lemma evict_positions (after before : list (string * Color)) (i : nat) (n : Z) :
  NoDup (JsObject.keys (before ++ after)%list) ->
  evict_ (JsObject.keys after) (Z.of_nat i) {| cache := (before ++ after)%list; cacheSize := n |}
  = {| cache := (before ++ kept_from i after)%list;
       cacheSize := n - (Z.of_nat (length after) - Z.of_nat (length (kept_from i after))) |}.
Proof.
  revert before i n; induction after as [|[k v] after IH]; intros before i n Hnd.
  - simpl. f_equal. lia.
  - cbn [JsObject.keys map fst evict_ kept_from]. rewrite land_3.
    replace (Z.of_nat i + 1) with (Z.of_nat (S i)) by lia.
    destruct (i mod 4 =? 0)%nat.
    + cbn [cache cacheSize]. rewrite delete_middle by assumption.
      fold (JsObject.keys after). rewrite IH.
      * f_equal. cbn [length]. lia.
      * unfold JsObject.keys in *. rewrite map_app in *. cbn [map fst] in Hnd.
        now apply NoDup_remove_1 in Hnd.
    + fold (JsObject.keys after).
      replace (before ++ (k, v) :: after)%list with ((before ++ [(k, v)]) ++ after)%list
        by (now rewrite <- app_assoc).
      rewrite IH.
      * rewrite <- app_assoc. f_equal. cbn [length]. lia.
      * now rewrite <- app_assoc.
Qed.

Lemma evict_all (st : State) :
  NoDup (JsObject.keys (cache st)) ->
  evict_ (JsObject.keys (cache st)) 0 st
  = {| cache := kept_from 0 (cache st);
       cacheSize := cacheSize st
                    - (Z.of_nat (length (cache st)) - Z.of_nat (length (kept_from 0 (cache st)))) |}.
Proof.
  intros Hnd. destruct st as [o n]. cbn [cache cacheSize] in *.
  exact (evict_positions o [] 0 n Hnd).
Qed.

Section Cache.

Variable fromNamed : string -> string.

Lemma consistent_empty : consistent fromNamed empty.
Proof.
  constructor; cbn [empty cache cacheSize length JsObject.keys map In].
  - reflexivity.
  - constructor.
  - unfold MAX_CACHE_SIZE. lia.
  - contradiction.
Qed.

Lemma made_room_cache (st : State) :
  consistent fromNamed st ->
  cache (made_room st)
  = if MAX_CACHE_SIZE <=? cacheSize st then kept_from 0 (cache st) else cache st.
Proof.
  intros [Hc Hd Hb Hp]. unfold made_room.
  destruct (MAX_CACHE_SIZE <=? cacheSize st); [|reflexivity].
  now rewrite evict_all.
Qed.

Lemma made_room_consistent (st : State) :
  consistent fromNamed st ->
  consistent fromNamed (made_room st) /\ cacheSize (made_room st) < MAX_CACHE_SIZE
  /\ forall k, In k (JsObject.keys (cache (made_room st))) -> In k (JsObject.keys (cache st)).
Proof.
  intros [Hc Hd Hb Hp]. unfold made_room.
  destruct (Z.leb_spec MAX_CACHE_SIZE (cacheSize st)) as [Hfull|Hroom].
  - rewrite evict_all by assumption.
    assert (Hne : cache st <> []).
    { intros E. rewrite E in Hc. cbn in Hc. unfold MAX_CACHE_SIZE in Hfull. lia. }
    pose proof (kept_from_0_length _ Hne) as Hlt.
    repeat split; cbn [cache cacheSize].
    + lia.
    + now apply kept_from_NoDup.
    + lia.
    + intros k v Hin. eauto using kept_from_In.
    + lia.
    + intros k. apply kept_from_keys_In.
  - repeat split; auto.
Qed.

Lemma fromString_throw (st : State) (s : string) (e : exn) :
  JsObject.hasOwnProperty (cache st) s = Throw e ->
  fromString fromNamed st s = ([], Throw e, st).
Proof. unfold fromString. now intros ->. Qed.

Lemma fromString_hit (st : State) (s : string) (color : Color) :
  JsObject.hasOwnProperty (cache st) s = Ok (Some color) ->
  fromString fromNamed st s = ([], Ok color, st).
Proof. unfold fromString. now intros ->. Qed.

Lemma fromString_miss (st : State) (s : string) :
  JsObject.hasOwnProperty (cache st) s = Ok None ->
  fromString fromNamed st s
  = match fromStringInternal_ fromNamed s with
    | (called, Ok color) =>
        (Parse s :: called, Ok color,
         {| cache := JsObject.set (cache (made_room st)) s color;
            cacheSize := cacheSize (made_room st) + 1 |})
    | (called, Throw e) => (Parse s :: called, Throw e, made_room st)
    end.
Proof. unfold fromString, made_room. now intros ->. Qed.

Lemma fromString_consistent (st : State) (s : string) :
  consistent fromNamed st -> consistent fromNamed (after (fromString fromNamed st s)).
Proof.
  intros Hst.
  destruct (JsObject.hasOwnProperty (cache st) s) as [[color|]|e] eqn:Hown.
  - now rewrite (fromString_hit _ _ _ Hown).
  - rewrite (fromString_miss _ _ Hown).
    apply hasOwnProperty_Ok in Hown. destruct Hown as [_ Hget].
    destruct (made_room_consistent _ Hst) as ([Hc Hd Hb Hp] & Hlt & Hsub).
    destruct (fromStringInternal_ fromNamed s) as [called [color|e]] eqn:Hparse;
      cbn [after snd]; [|now constructor].
    assert (Hnew : JsObject.get (cache (made_room st)) s = None).
    { apply get_None_keys. intros Hin. apply Hsub in Hin.
      now apply get_None_keys in Hget. }
    rewrite (set_new _ _ _ Hnew).
    constructor; cbn [cache cacheSize].
    + rewrite List.length_app. cbn [length]. lia.
    + unfold JsObject.keys. rewrite map_app. cbn [map fst].
      apply NoDup_app; [assumption | repeat constructor; easy |].
      intros k Hk [<-|[]]. now apply get_None_keys in Hnew.
    + lia.
    + intros k v [Hin|[[= <- <-]|[]]]%in_app_iff; [eauto|].
      now rewrite Hparse.
  - now rewrite (fromString_throw _ _ _ Hown).
Qed.

Lemma lookups_consistent (ss : list string) (st : State) :
  consistent fromNamed st -> consistent fromNamed (lookups fromNamed st ss).
Proof.
  revert st; induction ss as [|s ss IH]; intros st Hst; [assumption|].
  cbn [lookups]. apply IH. now apply fromString_consistent.
Qed.

End Cache.

(** C3: after any sequence of lookups from the empty cache the cache holds
    at most [MAX_CACHE_SIZE] entries, as many as its counter says; and a
    miss, [cache.hasOwnProperty(s)] returning false, on a full cache leaves
    the entries without those at the positions 0, 4, 8, ... of the
    enumeration, followed by the new entry if the string parses. *)
Theorem cache_stays_bounded (fromNamed : string -> string) (ss : list string) :
  let st := lookups fromNamed empty ss in
  (Z.of_nat (length (cache st)) <= MAX_CACHE_SIZE
   /\ cacheSize st = Z.of_nat (length (cache st)))
  /\ forall s : string,
       JsObject.hasOwnProperty (cache st) s = Ok None ->
       MAX_CACHE_SIZE <= cacheSize st ->
       cache (after (fromString fromNamed st s))
       = match snd (fromStringInternal_ fromNamed s) with
         | Ok color => (without_every_fourth (cache st) ++ [(s, color)])%list
         | Throw _ => without_every_fourth (cache st)
         end.
Proof.
  intros st.
  assert (Hst : consistent fromNamed st)
    by apply lookups_consistent, consistent_empty.
  split.
  - destruct Hst as [Hc _ Hb _]. split; [lia | assumption].
  - intros s Hown Hfull.
    rewrite (fromString_miss _ _ _ Hown).
    apply hasOwnProperty_Ok in Hown. destruct Hown as [_ Hget].
    assert (Hroom : cache (made_room st) = without_every_fourth (cache st)).
    { rewrite (made_room_cache _ _ Hst).
      replace (MAX_CACHE_SIZE <=? cacheSize st) with true
        by (symmetry; now apply Z.leb_le).
      apply kept_from_positions. }
    destruct (fromStringInternal_ fromNamed s) as [called [color|e]];
      cbn [after snd cache]; [|assumption].
    rewrite set_new, Hroom; [reflexivity|].
    apply get_None_keys. intros Hin.
    apply (proj2 (proj2 (made_room_consistent _ _ Hst))) in Hin.
    now apply get_None_keys in Hget.
Qed.

(** The 1025th distinct string finds the cache full: 256 entries go and
    the new one comes last. *)
Lemma cache_stays_bounded_witness :
  JsObject.hasOwnProperty (cache (lookups (fun _ => "") empty samples)) "#fff" = Ok None
  /\ (MAX_CACHE_SIZE <=? cacheSize (lookups (fun _ => "") empty samples)) = true
  /\ cache (after (fromString (fun _ => "") (lookups (fun _ => "") empty samples) "#fff"))
     = match snd (fromStringInternal_ (fun _ => "") "#fff") with
       | Ok color =>
           (without_every_fourth (cache (lookups (fun _ => "") empty samples))
            ++ [("#fff", color)])%list
       | Throw _ => without_every_fourth (cache (lookups (fun _ => "") empty samples))
       end.
Proof.
  assert (H1 : JsObject.hasOwnProperty (cache (lookups (fun _ => "") empty samples)) "#fff"
               = Ok None)
    by (vm_compute; reflexivity).
  assert (H2 : (MAX_CACHE_SIZE <=? cacheSize (lookups (fun _ => "") empty samples)) = true)
    by (vm_compute; reflexivity).
  split; [exact H1|]. split; [exact H2|].
  exact (proj2 (cache_stays_bounded (fun _ => "") samples) "#fff" H1
               (proj1 (Z.leb_le _ _) H2)).
Defined.

(** C6: the cache is not transparent once the string [hasOwnProperty] is
    cached.  Where the document computes [rgb(0, 0, 0)] for that name, its
    lookup parses and stores the colour as the property [hasOwnProperty] of
    the cache object; from then on [cache.hasOwnProperty(s)] is a call of
    that array, and every lookup throws a TypeError: the lookup of [#f00],
    which parses to [[255, 0, 0, 1]], and the lookup of [hasOwnProperty]
    itself, which is cached. *)
Theorem cached_hasOwnProperty_breaks_lookups :
  let fromNamed := fun _ : string => "rgb(0, 0, 0)" in
  let first := fromString fromNamed empty "hasOwnProperty" in
  outcome first = Ok [0; 0; 0; 1]%float
  /\ cache (after first) = [("hasOwnProperty", [0; 0; 0; 1]%float)]
  /\ snd (fromStringInternal_ fromNamed "#f00") = Ok [255; 0; 0; 1]%float
  /\ fromString fromNamed (after first) "#f00" = ([], Throw TypeError, after first)
  /\ fromString fromNamed (after first) "hasOwnProperty" = ([], Throw TypeError, after first).
Proof. repeat split; vm_compute; reflexivity. Qed.

(** C7: with [hasOwnProperty] cached, the lookup of [#12345], whose parse
    fails with assertion 14, throws the TypeError of the call
    [cache.hasOwnProperty(s)] instead and does not call the parser, the
    first time and the next. *)
Theorem failing_lookup_skips_the_parser :
  let fromNamed := fun _ : string => "rgb(0, 0, 0)" in
  let st := lookups fromNamed empty ["hasOwnProperty"] in
  let first := fromString fromNamed st "#12345" in
  let second := fromString fromNamed (after first) "#12345" in
  snd (fromStringInternal_ fromNamed "#12345") = Throw (AssertionError 14)
  /\ outcome first = Throw TypeError
  /\ calls first = []
  /\ outcome second = Throw TypeError
  /\ calls second = [].
Proof. repeat split; vm_compute; reflexivity. Qed.

(** ** The hex branch, digit by digit *)

Lemma hex_digit_cases (c : ascii) :
  is_hex_digit c = true -> In c hex_digit_chars.
Proof.
  destruct c as [[] [] [] [] [] [] [] []]; intros H; vm_compute in H;
    try discriminate H; vm_compute; tauto.
Qed.

Lemma digit_value_hex (c : ascii) :
  is_hex_digit c = true -> 0 <= digit_value c <= 15.
Proof.
  intros H. apply hex_digit_cases in H. cbn in H.
  repeat (destruct H as [<-|H]; [vm_compute; split; discriminate|]). contradiction.
Qed.

Lemma parseInt_hex_pair (c1 c2 : ascii) :
  is_hex_digit c1 = true -> is_hex_digit c2 = true ->
  parseInt (String c1 (String c2 "")) 16 = of_int (byte_of c1 c2).
Proof.
  intros H1 H2. apply hex_digit_cases in H1, H2.
  apply float_eqb_eq.
  assert (H : forallb (fun p : ascii * ascii =>
                         PrimFloat.Leibniz.eqb (parseInt (String (fst p) (String (snd p) "")) 16)
                                               (of_int (byte_of (fst p) (snd p))))
                      (list_prod hex_digit_chars hex_digit_chars) = true)
    by (vm_compute; reflexivity).
  rewrite forallb_forall in H.
  apply (H (c1, c2)). now apply in_prod.
Qed.

Lemma expand_doubled (c : ascii) :
  is_hex_digit c = true -> expand (String c "") = of_int (doubled c).
Proof. apply expand_hex_digit. Qed.

Lemma fromHex_6 (c1 c2 c3 c4 c5 c6 : ascii) :
  fromHex_ (String "#" (String c1 (String c2 (String c3 (String c4 (String c5 (String c6 "")))))))
  = [parseInt (String c1 (String c2 "")) 16; parseInt (String c3 (String c4 "")) 16;
     parseInt (String c5 (String c6 "")) 16; (255 / 255)%float].
Proof. reflexivity. Qed.

Lemma fromHex_7 (c1 c2 c3 c4 c5 c6 c7 : ascii) :
  fromHex_ (String "#" (String c1 (String c2 (String c3 (String c4 (String c5 (String c6 (String c7 ""))))))))
  = [parseInt (String c1 (String c2 "")) 16; parseInt (String c3 (String c4 "")) 16;
     parseInt (String c5 (String c6 "")) 16; (255 / 255)%float].
Proof. reflexivity. Qed.

Lemma fromHex_8 (c1 c2 c3 c4 c5 c6 c7 c8 : ascii) :
  fromHex_ (String "#" (String c1 (String c2 (String c3 (String c4 (String c5 (String c6 (String c7 (String c8 "")))))))))
  = [parseInt (String c1 (String c2 "")) 16; parseInt (String c3 (String c4 "")) 16;
     parseInt (String c5 (String c6 "")) 16;
     (parseInt (String c7 (String c8 "")) 16 / 255)%float].
Proof. reflexivity. Qed.

(** Whether [s.indexOf(p) == 0] is whether [s] starts with [p]. *)
Lemma indexOf_zero (s p : string) :
  (JsString.indexOf s p =? 0) = String.prefix p s.
Proof.
  unfold JsString.indexOf. destruct s as [|c s].
  - destruct p; reflexivity.
  - cbn [String.index]. destruct (String.prefix p (String c s)); [reflexivity|].
    destruct (String.index 0 p s); [|reflexivity].
    apply Z.eqb_neq. lia.
Qed.

Lemma fromResolved_not_hex (s : string) :
  hex_shape s = false ->
  fromResolved_ s
  = if String.prefix "rgba(" s then
      Ok (normalize (map Number (JsString.split "," (JsString.slice s 5 (-1)))) None)
    else if String.prefix "rgb(" s then
      Ok (normalize (map Number (JsString.split "," (JsString.slice s 4 (-1))) ++ [1%float])%list None)
    else Throw (AssertionError 14).
Proof.
  intros H. unfold fromResolved_. now rewrite HEX_COLOR_RE_exec, H, !indexOf_zero.
Qed.

Lemma fromResolved_hex (s : string) :
  hex_shape s = true -> fromResolved_ s = Ok (fromHex_ s).
Proof. intros H. unfold fromResolved_. now rewrite HEX_COLOR_RE_exec, H. Qed.

Lemma hash_fails (ds : string) :
  hex_shape (String "#" ds) = false ->
  fromResolved_ (String "#" ds) = Throw (AssertionError 14).
Proof. intros H. now rewrite fromResolved_not_hex. Qed.

Ltac wrong_length :=
  apply hash_fails; cbn [hex_shape String.length existsb Nat.eqb orb];
  apply andb_false_r.

Ltac right_length Hall :=
  cbn [JsString.all] in Hall;
  repeat (apply andb_prop in Hall; destruct Hall as [? Hall]);
  rewrite fromResolved_hex
    by (cbn [hex_shape JsString.all];
        repeat match goal with H : is_hex_digit _ = true |- _ => rewrite H end;
        reflexivity);
  cbn [hex_colour list_ascii_of_string];
  rewrite ?fromHex_3, ?fromHex_4, ?fromHex_6, ?fromHex_7, ?fromHex_8,
    ?expand_doubled, ?parseInt_hex_pair by assumption;
  reflexivity.

Lemma fromResolved_hash (ds : string) :
  fromResolved_ (String "#" ds)
  = if JsString.all is_hex_digit ds
    then match hex_colour ds with
         | Some c => Ok c
         | None => Throw (AssertionError 14)
         end
    else Throw (AssertionError 14).
Proof.
  destruct (JsString.all is_hex_digit ds) eqn:Hall.
  2:{ apply hash_fails. cbn [hex_shape]. now rewrite Hall. }
  destruct ds as [|c1 ds]; [wrong_length|].
  destruct ds as [|c2 ds]; [wrong_length|].
  destruct ds as [|c3 ds]; [wrong_length|].
  destruct ds as [|c4 ds]; [right_length Hall|].
  destruct ds as [|c5 ds]; [right_length Hall|].
  destruct ds as [|c6 ds]; [wrong_length|].
  destruct ds as [|c7 ds]; [right_length Hall|].
  destruct ds as [|c8 ds]; [right_length Hall|].
  destruct ds as [|c9 ds]; [right_length Hall|].
  wrong_length.
Qed.

(** X3: a string that starts with [#] is parsed without a call of the
    resolver: to the colour that its hex digits stand for when they are 3,
    4, 6, 7 or 8 hex digits and nothing else (two digits per channel from 6
    on, each digit doubled below, the alpha from a fourth digit or pair and 1
    without one), and to a failure with assertion 14 otherwise. *)
Theorem hash_strings_parse_as_hex (fromNamed : string -> string) (ds : string) :
  fromStringInternal_ fromNamed (String "#" ds)
  = ([], if JsString.all is_hex_digit ds
         then match hex_colour ds with
              | Some c => Ok c
              | None => Throw (AssertionError 14)
              end
         else Throw (AssertionError 14)).
Proof.
  unfold fromStringInternal_. now rewrite hash_not_named, fromResolved_hash.
Qed.

Lemma digit_value_case (c : ascii) :
  digit_value (to_lower c) = digit_value c /\ digit_value (to_upper c) = digit_value c.
Proof. destruct c as [[] [] [] [] [] [] [] []]; split; reflexivity. Qed.

Lemma is_hex_digit_case (c : ascii) :
  is_hex_digit (to_lower c) = is_hex_digit c /\ is_hex_digit (to_upper c) = is_hex_digit c.
Proof. destruct c as [[] [] [] [] [] [] [] []]; split; reflexivity. Qed.

Lemma all_hex_case (s : string) :
  JsString.all is_hex_digit (lower s) = JsString.all is_hex_digit s
  /\ JsString.all is_hex_digit (upper s) = JsString.all is_hex_digit s.
Proof.
  induction s as [|c s [IHl IHu]]; [split; reflexivity|].
  cbn [lower upper JsString.all].
  destruct (is_hex_digit_case c) as [-> ->]. now rewrite IHl, IHu.
Qed.

Lemma hex_colour_case (s : string) :
  hex_colour (lower s) = hex_colour s /\ hex_colour (upper s) = hex_colour s.
Proof.
  do 9 (destruct s as [|? s]; [split; cbn [lower upper hex_colour list_ascii_of_string];
       unfold doubled, byte_of;
       repeat match goal with
              | |- context [digit_value (to_lower ?c)] =>
                  rewrite (proj1 (digit_value_case c))
              | |- context [digit_value (to_upper ?c)] =>
                  rewrite (proj2 (digit_value_case c))
              end; reflexivity|]).
  split; reflexivity.
Qed.

(** X4: a hex colour reads the same in either letter case: the string
    with its letters in lower case, and in upper case, parses to what the
    string itself parses to, a colour or a failure. *)
Theorem hex_is_case_insensitive (fromNamed : string -> string) (ds : string) :
  fromStringInternal_ fromNamed (String "#" (lower ds))
  = fromStringInternal_ fromNamed (String "#" ds)
  /\ fromStringInternal_ fromNamed (String "#" (upper ds))
     = fromStringInternal_ fromNamed (String "#" ds).
Proof.
  unfold fromStringInternal_. rewrite !hash_not_named, !fromResolved_hash.
  destruct (all_hex_case ds) as [-> ->], (hex_colour_case ds) as [-> ->].
  split; reflexivity.
Qed.

Ltac bytes_of_digits Hall Hc :=
  cbn [JsString.all] in Hall;
  repeat (apply andb_prop in Hall; destruct Hall as [? Hall]);
  repeat match goal with
         | H : is_hex_digit _ = true |- _ => apply digit_value_hex in H
         end;
  cbn [hex_colour list_ascii_of_string] in Hc; injection Hc as <-;
  unfold doubled, byte_of;
  first [ eexists _, _, _, 255; split; [reflexivity|]; lia
        | eexists _, _, _, _; split; [reflexivity|]; lia ].

Lemma hex_colour_bytes (ds : string) (c : Color) :
  JsString.all is_hex_digit ds = true -> hex_colour ds = Some c ->
  exists r g b k,
    c = [of_int r; of_int g; of_int b; (of_int k / 255)%float]
    /\ 0 <= r <= 255 /\ 0 <= g <= 255 /\ 0 <= b <= 255 /\ 0 <= k <= 255.
Proof.
  intros Hall Hc.
  do 9 (destruct ds as [|? ds];
        [first [discriminate Hc | bytes_of_digits Hall Hc]|]).
  discriminate Hc.
Qed.

(** ** The colours that the parser returns *)

Lemma is_nan_Prim2SF (x : float) : is_nan x = false -> Prim2SF x <> S754_nan.
Proof.
  unfold is_nan. rewrite FloatAxioms.eqb_spec. intros H E. rewrite E in H.
  discriminate H.
Qed.

Lemma is_nan_true (x : float) : is_nan x = true -> x = nan.
Proof.
  unfold is_nan. rewrite FloatAxioms.eqb_spec. unfold SFeqb. intros H.
  rewrite <- (SF2Prim_Prim2SF x).
  destruct (Prim2SF x) as [s|s| |s m e] eqn:E; [| |reflexivity|];
    rewrite SFcompare_refl in H by discriminate; discriminate H.
Qed.

Lemma SFcompare_defined (x y : spec_float) :
  x <> S754_nan -> y <> S754_nan -> exists c, SFcompare x y = Some c.
Proof.
  destruct x as [sx|sx| |sx mx ex], y as [sy|sy| |sy my ey]; simpl; intros Hx Hy;
    try congruence; eauto.
Qed.

Lemma ltb_leb (x y : float) : (x <? y)%float = true -> (x <=? y)%float = true.
Proof.
  rewrite FloatAxioms.ltb_spec, FloatAxioms.leb_spec. unfold SFltb, SFleb.
  destruct (SFcompare (Prim2SF x) (Prim2SF y)) as [[]|]; congruence.
Qed.

(** Of two Numbers that are not NaN, one that is not above the other is
    below it or equal to it. *)
Lemma not_ltb_leb (x y : float) :
  is_nan x = false -> is_nan y = false ->
  (y <? x)%float = false -> (x <=? y)%float = true.
Proof.
  intros Hx%is_nan_Prim2SF Hy%is_nan_Prim2SF.
  rewrite FloatAxioms.ltb_spec, FloatAxioms.leb_spec. unfold SFltb, SFleb.
  destruct (SFcompare_defined _ _ Hx Hy) as [c Hc].
  rewrite Hc, (SFcompare_antisym _ _ _ Hc). destruct c; simpl; congruence.
Qed.

Lemma positive_not_neg_zero (a : float) : (0 <? a)%float = true -> a <> (-0)%float.
Proof. intros H ->. discriminate H. Qed.

Lemma float_discriminate (x y : float) : Prim2SF x <> Prim2SF y -> x <> y.
Proof. intros H ->. now apply H. Qed.

(** What [clamp] returns for the range from 0 to 1 is NaN, or lies in the
    range and is not the negative zero. *)
Lemma clamp_unit_range (a : number) :
  is_nan (clamp a 0 1) = true
  \/ ((0 <=? clamp a 0 1)%float = true /\ (clamp a 0 1 <=? 1)%float = true
      /\ clamp a 0 1 <> (-0)%float).
Proof.
  unfold clamp, Math_max, Math_min.
  change (is_nan 0) with false. change (is_nan 1) with false.
  change (get_sign 0) with false. change (get_sign 1) with false.
  rewrite !orb_false_r.
  destruct (is_nan a) eqn:Hn; [left; reflexivity|].
  destruct (a <? 0)%float eqn:H1;
    [right; repeat split; try reflexivity; apply float_discriminate; discriminate|].
  destruct (0 <? a)%float eqn:H2;
    [|right; repeat split; try reflexivity; apply float_discriminate; discriminate].
  rewrite Hn. right.
  destruct (a <? 1)%float eqn:H3;
    [repeat split; auto using ltb_leb, positive_not_neg_zero|].
  destruct (1 <? a)%float eqn:H4;
    [repeat split; try reflexivity; apply float_discriminate; discriminate|].
  repeat split; [auto using ltb_leb | now apply not_ltb_leb | now apply positive_not_neg_zero].
Qed.

(** The array that [normalize] returns without an output array: four
    fields within their ranges, whatever the input holds. *)
Lemma normalize_in_gamut (c : Color) : in_gamut (normalize c None).
Proof.
  rewrite normalize_fields.
  destruct (channel_byte (JsArray.at_ c 0)) as (r & Hr & ->).
  destruct (channel_byte (JsArray.at_ c 1)) as (g & Hg & ->).
  destruct (channel_byte (JsArray.at_ c 2)) as (b & Hb & ->).
  exists r, g, b, (clamp (JsArray.at_ c 3) 0 1).
  repeat split; try lia. apply clamp_unit_range.
Qed.

Lemma normalize_output (c out : Color) :
  normalize c (Some out) = (normalize c None ++ skipn 4 out)%list.
Proof.
  destruct out as [|o0 [|o1 [|o2 [|o3 out]]]]; reflexivity.
Qed.

(** X9: [normalize] fills the first four fields of the array that it
    returns with values within their ranges, whatever the input array holds
    and however long it is, and leaves what an output array holds from the
    fifth field on; a channel missing from the input becomes 0 and a missing
    alpha NaN. *)
Theorem normalize_fills_four_fields (c : Color) (opt_color : option Color) :
  in_gamut (normalize c None)
  /\ normalize c opt_color
     = (normalize c None
        ++ match opt_color with Some out => skipn 4 out | None => [] end)%list
  /\ normalize [] None = [0; 0; 0; nan]%float.
Proof.
  split; [apply normalize_in_gamut|]. split; [|vm_compute; reflexivity].
  destruct opt_color as [out|]; [apply normalize_output | now rewrite app_nil_r].
Qed.

Lemma byte_alpha_in_gamut (r g b k : Z) :
  0 <= r <= 255 -> 0 <= g <= 255 -> 0 <= b <= 255 -> 0 <= k <= 255 ->
  in_gamut [of_int r; of_int g; of_int b; (of_int k / 255)%float].
Proof.
  intros Hr Hg Hb Hk. exists r, g, b, (of_int k / 255)%float.
  pose proof (byte_alpha_range k Hk). tauto.
Qed.

Lemma hex_shape_hash (s : string) :
  hex_shape s = true -> exists ds, s = String "#" ds.
Proof.
  destruct s as [|c0 ds]; [discriminate|]. intros H. exists ds.
  destruct c0 as [[] [] [] [] [] [] [] []]; try discriminate H. reflexivity.
Qed.

Lemma fromResolved_in_gamut (s : string) (c : Color) :
  fromResolved_ s = Ok c -> in_gamut c.
Proof.
  destruct (hex_shape s) eqn:Hhex.
  - destruct (hex_shape_hash s Hhex) as [ds ->].
    rewrite fromResolved_hash.
    destruct (JsString.all is_hex_digit ds) eqn:Hall; [|discriminate].
    destruct (hex_colour ds) as [c'|] eqn:Hc; [|discriminate].
    intros [= <-].
    destruct (hex_colour_bytes ds c' Hall Hc) as (r & g & b & k & -> & Hr & Hg & Hb & Hk).
    now apply byte_alpha_in_gamut.
  - rewrite (fromResolved_not_hex s Hhex).
    destruct (String.prefix "rgba(" s); [intros [= <-]; apply normalize_in_gamut|].
    destruct (String.prefix "rgb(" s); [intros [= <-]; apply normalize_in_gamut|].
    discriminate.
Qed.

Lemma fromResolved_failure (s : string) (e : exn) :
  fromResolved_ s = Throw e -> e = AssertionError 14.
Proof.
  unfold fromResolved_.
  repeat match goal with
         | |- (if ?b then _ else _) = _ -> _ => destruct b
         end; congruence.
Qed.

Lemma parsed_in_gamut (fromNamed : string -> string) (s : string) (c : Color) :
  snd (fromStringInternal_ fromNamed s) = Ok c -> in_gamut c.
Proof.
  unfold fromStringInternal_.
  destruct (RegExp.exec NAMED_COLOR_RE_ s); cbn [snd]; apply fromResolved_in_gamut.
Qed.

(** X8: every colour that the parser returns, for whatever string and
    resolver, has four fields: three integers from 0 to 255, and an alpha
    that is NaN or lies between 0 and 1 and is not the negative zero. *)
Theorem parsed_colours_are_in_gamut (fromNamed : string -> string) (s : string) (c : Color) :
  snd (fromStringInternal_ fromNamed s) = Ok c -> length c = 4%nat /\ in_gamut c.
Proof.
  intros H. apply parsed_in_gamut in H. split; [|assumption].
  destruct H as (r & g & b & a & -> & _). reflexivity.
Qed.

(** [rgba(300,-10,128,2)] is brought to [[255, 0, 128, 1]]. *)
Lemma parsed_colours_are_in_gamut_witness :
  length [255; 0; 128; 1]%float = 4%nat /\ in_gamut [255; 0; 128; 1]%float.
Proof.
  assert (H : snd (fromStringInternal_ (fun _ => "") "rgba(300,-10,128,2)")
              = Ok [255; 0; 128; 1]%float) by (vm_compute; reflexivity).
  exact (parsed_colours_are_in_gamut (fun _ => "") "rgba(300,-10,128,2)" _ H).
Defined.


(** X2: the named-colour pattern matches the strings of ASCII letters of
    either case, the empty string among them, and no other string. *)
Theorem named_pattern_accepts (s : string) :
  RegExp.exec NAMED_COLOR_RE_ s = true
  <-> Forall (fun c => is_alpha c = true) (list_ascii_of_string s).
Proof.
  rewrite NAMED_COLOR_RE_exec.
  induction s as [|c s IH]; cbn [JsString.all list_ascii_of_string].
  - split; [constructor | reflexivity].
  - rewrite andb_true_iff, IH. split.
    + intros [Hc Hs]. now constructor.
    + intros H. inversion H; subst. now split.
Qed.

(** ** Strings of the form [rgb(...)] and names *)

Lemma rgb_not_named (x : string) :
  RegExp.exec NAMED_COLOR_RE_ ("rgb(" ++ x) = false.
Proof. rewrite NAMED_COLOR_RE_exec. reflexivity. Qed.

Lemma fromResolved_rgb (x : string) :
  fromResolved_ ("rgb(" ++ x ++ ")")
  = Ok (normalize (map Number (JsString.split "," x) ++ [1%float])%list None).
Proof.
  rewrite fromResolved_not_hex by reflexivity.
  change (String.prefix "rgba(" ("rgb(" ++ x ++ ")")) with false.
  rewrite prefix_app. cbv iota.
  change 4 with (JsString.length "rgb(").
  now rewrite slice_inner.
Qed.

(** White space before a Number is skipped. *)
Lemma Number_after_space (s : string) : Number (String " " s) = Number s.
Proof. reflexivity. Qed.

Lemma split_three (p q r : string) :
  JsString.all (other_than ",") p = true ->
  JsString.all (other_than ",") q = true ->
  JsString.all (other_than ",") r = true ->
  JsString.split "," (p ++ String "," (q ++ String "," r)) = [p; q; r].
Proof. intros Hp Hq Hr. now rewrite !split_app, split_without. Qed.

Lemma spaced_no_comma (s : string) :
  JsString.all (other_than ",") s = true ->
  JsString.all (other_than ",") (String " " s) = true.
Proof. intros H. cbn [JsString.all]. now rewrite H. Qed.

Lemma normalize_opaque (r g b : Z) :
  0 <= r <= 255 -> 0 <= g <= 255 -> 0 <= b <= 255 ->
  normalize [of_int r; of_int g; of_int b; 1%float] None
  = [of_int r; of_int g; of_int b; 1%float].
Proof.
  intros Hr Hg Hb. apply normalize_in_range; try assumption; try reflexivity.
  apply float_discriminate. discriminate.
Qed.

(** The string that a document computes for an opaque colour. *)
Lemma fromResolved_computed (r g b : Z) :
  0 <= r <= 255 -> 0 <= g <= 255 -> 0 <= b <= 255 ->
  fromResolved_ ("rgb(" ++ numberToString (of_int r) ++ ", " ++ numberToString (of_int g)
                        ++ ", " ++ numberToString (of_int b) ++ ")")
  = Ok [of_int r; of_int g; of_int b; 1%float].
Proof.
  intros Hr Hg Hb.
  replace (numberToString (of_int r) ++ ", " ++ numberToString (of_int g)
             ++ ", " ++ numberToString (of_int b) ++ ")")
    with ((numberToString (of_int r)
             ++ String "," (String " " (numberToString (of_int g))
                              ++ String "," (String " " (numberToString (of_int b))))) ++ ")")
    by (repeat (rewrite ?string_app_assoc; cbn [String.append]); reflexivity).
  rewrite fromResolved_rgb, split_three
    by auto using spaced_no_comma, numberToString_no_comma.
  cbn [map app]. rewrite !Number_after_space, !byte_string by assumption.
  now rewrite normalize_opaque.
Qed.

(** X5: [rgb(r,g,b)] with three integers from 0 to 255 in decimal parses to
    [[r, g, b, 1]]: the alpha that the rgb branch appends is 1, and no
    resolver is asked. *)
Theorem rgb_string_parses (fromNamed : string -> string) (r g b : Z) :
  0 <= r <= 255 -> 0 <= g <= 255 -> 0 <= b <= 255 ->
  fromStringInternal_ fromNamed
    ("rgb(" ++ numberToString (of_int r) ++ "," ++ numberToString (of_int g)
            ++ "," ++ numberToString (of_int b) ++ ")")
  = ([], Ok [of_int r; of_int g; of_int b; 1%float]).
Proof.
  intros Hr Hg Hb. unfold fromStringInternal_. rewrite rgb_not_named. f_equal.
  replace (numberToString (of_int r) ++ "," ++ numberToString (of_int g)
             ++ "," ++ numberToString (of_int b) ++ ")")
    with ((numberToString (of_int r)
             ++ String "," (numberToString (of_int g)
                              ++ String "," (numberToString (of_int b)))) ++ ")")
    by (repeat (rewrite ?string_app_assoc; cbn [String.append]); reflexivity).
  rewrite fromResolved_rgb, split_three by apply numberToString_no_comma.
  cbn [map app]. rewrite !byte_string by assumption.
  now rewrite normalize_opaque.
Qed.

(** [rgb(12,0,255)] *)
Lemma rgb_string_parses_witness :
  fromStringInternal_ (fun _ => "")
    ("rgb(" ++ numberToString (of_int 12) ++ "," ++ numberToString (of_int 0)
            ++ "," ++ numberToString (of_int 255) ++ ")")
  = ([], Ok [of_int 12; of_int 0; of_int 255; 1%float]).
Proof.
  exact (rgb_string_parses (fun _ => "") 12 0 255 ltac:(lia) ltac:(lia) ltac:(lia)).
Defined.

(** X6: a string of letters is a name: the parser asks the resolver once,
    for that string, and when the answer is the computed form
    [rgb(r, g, b)] of an opaque colour the result is [[r, g, b, 1]]. *)
Theorem named_colour_is_resolved (fromNamed : string -> string)
    (name : string) (r g b : Z) :
  JsString.all is_alpha name = true ->
  0 <= r <= 255 -> 0 <= g <= 255 -> 0 <= b <= 255 ->
  fromNamed name
  = "rgb(" ++ numberToString (of_int r) ++ ", " ++ numberToString (of_int g)
           ++ ", " ++ numberToString (of_int b) ++ ")" ->
  fromStringInternal_ fromNamed name
  = ([Resolve name], Ok [of_int r; of_int g; of_int b; 1%float]).
Proof.
  intros Hname Hr Hg Hb Hanswer. unfold fromStringInternal_.
  rewrite NAMED_COLOR_RE_exec, Hname, Hanswer.
  now rewrite fromResolved_computed.
Qed.

(** The name [red] in a document that computes [rgb(255, 0, 0)] for it. *)
Lemma named_colour_is_resolved_witness :
  fromStringInternal_ (fun _ => "rgb(255, 0, 0)") "red"
  = ([Resolve "red"], Ok [of_int 255; of_int 0; of_int 0; 1%float]).
Proof.
  assert (H : (fun _ : string => "rgb(255, 0, 0)") "red"
              = "rgb(" ++ numberToString (of_int 255) ++ ", " ++ numberToString (of_int 0)
                       ++ ", " ++ numberToString (of_int 0) ++ ")")
    by (vm_compute; reflexivity).
  exact (named_colour_is_resolved (fun _ => "rgb(255, 0, 0)") "red" 255 0 0
           eq_refl ltac:(lia) ltac:(lia) ltac:(lia) H).
Defined.

(** ** What [toString] prints *)

Lemma toString_shape (c : Color) :
  toString c
  = "rgba(" ++ (numberToString (printed (JsArray.at_ c 0)) ++ ","
                ++ numberToString (printed (JsArray.at_ c 1)) ++ ","
                ++ numberToString (printed (JsArray.at_ c 2)) ++ ","
                ++ numberToString (match nth_error c 3 with
                                   | None => 1%float
                                   | Some a => a
                                   end)) ++ ")".
Proof.
  unfold toString, printed. cbv zeta. rewrite !string_app_assoc. reflexivity.
Qed.



(** X11: what [toString] prints is a string that the parser takes, for
    whatever array: the parser does not fail on it, asks no resolver, and
    returns a colour within its ranges. *)
Theorem serialised_colours_parse (fromNamed : string -> string) (c : Color) :
  exists c', fromStringInternal_ fromNamed (toString c) = ([], Ok c') /\ in_gamut c'.
Proof.
  rewrite toString_shape, parse_rgba. eexists. split; [reflexivity|].
  apply normalize_in_gamut.
Qed.

Lemma nan_prints_back : Number (numberToString nan) = nan.
Proof. vm_compute. reflexivity. Qed.

Lemma clamp_nan : clamp nan 0 1 = nan.
Proof. vm_compute. reflexivity. Qed.

(** A colour within its ranges is parsed back from its serialised form. *)
Lemma in_gamut_prints_back (fromNamed : string -> string) (c : Color) :
  in_gamut c -> fromStringInternal_ fromNamed (toString c) = ([], Ok c).
Proof.
  intros (r & g & b & a & -> & Hr & Hg & Hb & Ha).
  rewrite toString_bytes, parse_rgba by assumption.
  rewrite split_four by apply numberToString_no_comma.
  cbn [map]. rewrite !byte_string by assumption.
  destruct Ha as [Hnan|(H0 & H1 & Hnz)].
  - apply is_nan_true in Hnan. subst a. rewrite nan_prints_back.
    rewrite normalize_fields. cbn [JsArray.at_ nth].
    now rewrite !channel_of_byte, clamp_nan.
  - rewrite unit_prints_back by assumption.
    now rewrite normalize_in_range.
Qed.

(** X12: a colour that the parser returned, for whatever string, is parsed
    back from its serialised form: [toString] and the parser are inverse to
    each other on the colours that the parser returns. *)
Theorem parsed_colours_print_back (fromNamed : string -> string) (s : string) (c : Color) :
  snd (fromStringInternal_ fromNamed s) = Ok c ->
  fromStringInternal_ fromNamed (toString c) = ([], Ok c).
Proof. intros H. eapply in_gamut_prints_back, parsed_in_gamut, H. Qed.

(** The colour of [#f00a]. *)
Lemma parsed_colours_print_back_witness :
  fromStringInternal_ (fun _ => "") (toString [255; 0; 0; 170 / 255]%float)
  = ([], Ok [255; 0; 0; 170 / 255]%float).
Proof.
  assert (H : snd (fromStringInternal_ (fun _ => "") "#f00a") = Ok [255; 0; 0; 170 / 255]%float)
    by (vm_compute; reflexivity).
  exact (parsed_colours_print_back (fun _ => "") "#f00a" _ H).
Defined.

(** ** How many entries an eviction removes *)

Ltac mod4 i :=
  pose proof (Nat.div_mod_eq i 4);
  pose proof (Nat.mod_upper_bound i 4 ltac:(lia)).

(** With [e] the number of positions before the first one divisible by 4,
    counted from 3 downwards, the entries removed from [n] are the quarter
    of [n + e], rounded down. *)
Lemma kept_from_count {A : Type} (l : list A) (i : nat) :
  let removed := (length l - length (kept_from i l))%nat in
  (4 * removed <= length l + (i + 3) mod 4 <= 4 * removed + 3)%nat.
Proof.
  revert i; induction l as [|x l IH]; intros i; cbn [kept_from length].
  - cbn zeta. mod4 (i + 3)%nat. lia.
  - specialize (IH (S i)). cbn zeta in IH |- *.
    pose proof (kept_from_length (S i) l).
    mod4 i. mod4 (i + 3)%nat. mod4 (S i + 3)%nat.
    destruct (Nat.eqb_spec (i mod 4) 0) as [E|E]; cbn [length]; lia.
Qed.

Lemma without_every_fourth_length {A : Type} (l : list A) :
  length (without_every_fourth l) = (length l - (length l + 3) / 4)%nat.
Proof.
  unfold without_every_fourth. rewrite <- kept_from_positions.
  pose proof (kept_from_count l 0) as H. cbn zeta in H.
  change ((0 + 3) mod 4)%nat with 3%nat in H.
  pose proof (kept_from_length 0 l).
  pose proof (Nat.div_mod_eq (length l + 3) 4).
  pose proof (Nat.mod_upper_bound (length l + 3) 4 ltac:(lia)).
  lia.
Qed.

(** X13: a miss on a full cache leaves 768 of the 1024 entries, the new one
    making 769 when the string parses; the entries are removed also when it
    does not. *)
Theorem eviction_removes_a_quarter (fromNamed : string -> string)
    (ss : list string) (s : string) :
  let st := lookups fromNamed empty ss in
  JsObject.hasOwnProperty (cache st) s = Ok None ->
  MAX_CACHE_SIZE <= cacheSize st ->
  let st' := after (fromString fromNamed st s) in
  cacheSize st' = Z.of_nat (length (cache st'))
  /\ cacheSize st' = match snd (fromStringInternal_ fromNamed s) with
                     | Ok _ => 769
                     | Throw _ => 768
                     end.
Proof.
  intros st Hown Hfull st'.
  assert (Hst : consistent fromNamed st)
    by apply lookups_consistent, consistent_empty.
  assert (Hst' : consistent fromNamed st') by now apply fromString_consistent.
  split; [apply Hst'|]. rewrite (counted _ _ Hst'). subst st'.
  rewrite (fromString_miss _ _ _ Hown).
  apply hasOwnProperty_Ok in Hown. destruct Hown as [_ Hget].
  assert (Hroom : cache (made_room st) = without_every_fourth (cache st)).
  { rewrite (made_room_cache _ _ Hst).
    replace (MAX_CACHE_SIZE <=? cacheSize st) with true
      by (symmetry; now apply Z.leb_le).
    apply kept_from_positions. }
  assert (Hlen : length (cache st) = 1024%nat).
  { destruct Hst as [Hc _ Hb _]. unfold MAX_CACHE_SIZE in *. lia. }
  assert (Hkept : length (without_every_fourth (cache st)) = 768%nat)
    by (rewrite without_every_fourth_length, Hlen; reflexivity).
  destruct (fromStringInternal_ fromNamed s) as [called [color|e]];
    cbn [after snd cache].
  - rewrite set_new, Hroom, List.length_app, Hkept; [reflexivity|].
    apply get_None_keys. intros Hin.
    apply (proj2 (proj2 (made_room_consistent _ _ Hst))) in Hin.
    now apply get_None_keys in Hget.
  - now rewrite Hroom, Hkept.
Qed.

(** The strings [#000] to [#3ff] fill the cache; [#12345] does not parse. *)
Lemma eviction_removes_a_quarter_witness :
  JsObject.hasOwnProperty (cache (lookups (fun _ => "") empty samples)) "#12345" = Ok None
  /\ (MAX_CACHE_SIZE <=? cacheSize (lookups (fun _ => "") empty samples)) = true
  /\ cacheSize (after (fromString (fun _ => "") (lookups (fun _ => "") empty samples) "#12345"))
     = match snd (fromStringInternal_ (fun _ => "") "#12345") with
       | Ok _ => 769
       | Throw _ => 768
       end.
Proof.
  assert (H1 : JsObject.hasOwnProperty (cache (lookups (fun _ => "") empty samples)) "#12345"
               = Ok None)
    by (vm_compute; reflexivity).
  assert (H2 : (MAX_CACHE_SIZE <=? cacheSize (lookups (fun _ => "") empty samples)) = true)
    by (vm_compute; reflexivity).
  split; [exact H1|]. split; [exact H2|].
  exact (proj2 (eviction_removes_a_quarter (fun _ => "") samples "#12345" H1
                  (proj1 (Z.leb_le _ _) H2))).
Defined.

(** ** Lookups in a cache that does not hold the key [hasOwnProperty] *)

Lemma get_set_same (o : list (string * Color)) (key : string) (v : Color) :
  JsObject.get (JsObject.set o key v) key = Some v.
Proof.
  induction o as [|[k w] o IH]; cbn [JsObject.set JsObject.get].
  - now rewrite String.eqb_refl.
  - destruct (String.eqb k key) eqn:E; cbn [JsObject.get]; now rewrite E.
Qed.

Lemma get_set_other (o : list (string * Color)) (key other : string) (v : Color) :
  key <> other -> JsObject.get (JsObject.set o key v) other = JsObject.get o other.
Proof.
  intros Hne. induction o as [|[k w] o IH]; cbn [JsObject.set JsObject.get].
  - destruct (String.eqb_spec key other); [contradiction | reflexivity].
  - destruct (String.eqb_spec k key) as [->|Hk]; cbn [JsObject.get].
    + destruct (String.eqb_spec key other); [contradiction | reflexivity].
    + now rewrite IH.
Qed.

Lemma delete_get_None (o : list (string * Color)) (key other : string) :
  JsObject.get o other = None -> JsObject.get (JsObject.delete o key) other = None.
Proof.
  induction o as [|[k w] o IH]; [reflexivity|].
  cbn [JsObject.get JsObject.delete filter fst].
  destruct (String.eqb k other) eqn:E; [discriminate|].
  intros H. destruct (negb (String.eqb k key)); cbn [JsObject.get];
    rewrite ?E; now apply IH.
Qed.

Lemma evict_get_None (keys : list string) (i : Z) (st : State) (other : string) :
  JsObject.get (cache st) other = None ->
  JsObject.get (cache (evict_ keys i st)) other = None.
Proof.
  revert i st; induction keys as [|key keys IH]; intros i st H; [assumption|].
  cbn [evict_]. destruct (Z.land i 3 =? 0); apply IH; [|assumption].
  cbn [cache]. now apply delete_get_None.
Qed.

(** Making room adds no key. *)
Lemma made_room_get_None (st : State) (key : string) :
  JsObject.get (cache st) key = None -> JsObject.get (cache (made_room st)) key = None.
Proof.
  intros H. unfold made_room.
  destruct (MAX_CACHE_SIZE <=? cacheSize st); [now apply evict_get_None | assumption].
Qed.

(** In a state that lookups lead to and that does not hold the key
    [hasOwnProperty], a string is looked up to what the parser returns for
    it. *)
Lemma lookup_agrees_with_parser (fromNamed : string -> string)
    (st : State) (s : string) :
  consistent fromNamed st -> JsObject.get (cache st) "hasOwnProperty" = None ->
  outcome (fromString fromNamed st s) = snd (fromStringInternal_ fromNamed s).
Proof.
  intros Hst Hown. destruct (JsObject.get (cache st) s) as [cached|] eqn:Hget.
  - rewrite (fromString_hit _ _ _ cached) by now apply hasOwnProperty_Ok.
    cbn [outcome fst snd].
    symmetry. eapply (parsed _ _ Hst), get_Some_In, Hget.
  - rewrite fromString_miss by now apply hasOwnProperty_Ok.
    now destruct (fromStringInternal_ fromNamed s) as [called [c|e]].
Qed.

(** X15: as long as the key [hasOwnProperty] is not in the cache, the cache
    is transparent: in every state that lookups from the empty cache lead
    to, a string is looked up to what a fresh parse of it returns, a colour
    or a failure. *)
Theorem unshadowed_cache_is_transparent (fromNamed : string -> string)
    (ss : list string) (s : string) :
  let st := lookups fromNamed empty ss in
  JsObject.get (cache st) "hasOwnProperty" = None ->
  outcome (fromString fromNamed st s) = snd (fromStringInternal_ fromNamed s).
Proof.
  intros st Hown. apply lookup_agrees_with_parser; [|assumption].
  apply lookups_consistent, consistent_empty.
Qed.

(** [#f00], looked up after it was cached. *)
Lemma unshadowed_cache_is_transparent_witness :
  outcome (fromString (fun _ => "") (lookups (fun _ => "") empty ["#abc"; "#f00"; "red"]) "#f00")
  = snd (fromStringInternal_ (fun _ => "") "#f00").
Proof.
  assert (H : JsObject.get (cache (lookups (fun _ => "") empty ["#abc"; "#f00"; "red"]))
                "hasOwnProperty" = None) by (vm_compute; reflexivity).
  exact (unshadowed_cache_is_transparent (fun _ => "") ["#abc"; "#f00"; "red"] "#f00" H).
Defined.

(** X16: as long as the key [hasOwnProperty] is not in the cache, a string
    that fails to parse fails in the lookup with the same exception, gets no
    entry, and is parsed again by the next lookup. *)
Theorem failed_lookup_is_retried (fromNamed : string -> string)
    (ss : list string) (s : string) (e : exn) :
  let st := lookups fromNamed empty ss in
  JsObject.get (cache st) "hasOwnProperty" = None ->
  snd (fromStringInternal_ fromNamed s) = Throw e ->
  let first := fromString fromNamed st s in
  let second := fromString fromNamed (after first) s in
  outcome first = Throw e
  /\ JsObject.get (cache (after first)) s = None
  /\ In (Parse s) (calls first)
  /\ outcome second = Throw e
  /\ In (Parse s) (calls second).
Proof.
  intros st Hown Hparse first second.
  assert (Hst : consistent fromNamed st)
    by apply lookups_consistent, consistent_empty.
  assert (Hfail : forall st', consistent fromNamed st' ->
            JsObject.get (cache st') "hasOwnProperty" = None ->
            fromString fromNamed st' s
            = (Parse s :: fst (fromStringInternal_ fromNamed s), Throw e, made_room st')).
  { intros st' Hst' Hown'.
    destruct (JsObject.get (cache st') s) as [cached|] eqn:Hget.
    - apply get_Some_In in Hget. apply (parsed _ _ Hst') in Hget. congruence.
    - rewrite fromString_miss by now apply hasOwnProperty_Ok.
      destruct (fromStringInternal_ fromNamed s) as [called [c|e']];
        cbn [snd fst] in *; congruence. }
  assert (Hfirst : first = (Parse s :: fst (fromStringInternal_ fromNamed s), Throw e, made_room st))
    by (apply Hfail; assumption).
  assert (Hst1 : consistent fromNamed (after first)).
  { rewrite Hfirst. apply (made_room_consistent _ _ Hst). }
  assert (Hown1 : JsObject.get (cache (after first)) "hasOwnProperty" = None).
  { rewrite Hfirst. cbn [after snd]. now apply made_room_get_None. }
  assert (Hsecond : second = (Parse s :: fst (fromStringInternal_ fromNamed s), Throw e,
                              made_room (after first)))
    by (apply Hfail; assumption).
  rewrite Hsecond, Hfirst. rewrite Hfirst in Hst1.
  cbn [outcome calls after fst snd] in *. repeat split; try (now left).
  destruct (JsObject.get (cache (made_room st)) s) as [cached|] eqn:Hget; [|reflexivity].
  apply get_Some_In in Hget. apply (parsed _ _ Hst1) in Hget. congruence.
Qed.

(** [#12345], looked up twice after it failed once. *)
Lemma failed_lookup_is_retried_witness :
  let first := fromString (fun _ => "") (lookups (fun _ => "") empty ["#abc"; "#12345"]) "#12345" in
  let second := fromString (fun _ => "") (after first) "#12345" in
  outcome first = Throw (AssertionError 14)
  /\ JsObject.get (cache (after first)) "#12345" = None
  /\ In (Parse "#12345") (calls first)
  /\ outcome second = Throw (AssertionError 14)
  /\ In (Parse "#12345") (calls second).
Proof.
  assert (H1 : JsObject.get (cache (lookups (fun _ => "") empty ["#abc"; "#12345"]))
                 "hasOwnProperty" = None) by (vm_compute; reflexivity).
  assert (H2 : snd (fromStringInternal_ (fun _ => "") "#12345") = Throw (AssertionError 14))
    by (vm_compute; reflexivity).
  exact (failed_lookup_is_retried (fun _ => "") ["#abc"; "#12345"] "#12345" _ H1 H2).
Defined.

(** X14: a string other than [hasOwnProperty] that was looked up to a
    colour is looked up again, right after, to the same colour, without a
    call of the parser or the resolver and without a change of the cache, in
    whatever state the first lookup began. *)
Theorem repeated_lookup_is_a_hit (fromNamed : string -> string)
    (st : State) (s : string) (color : Color) :
  s <> "hasOwnProperty" ->
  outcome (fromString fromNamed st s) = Ok color ->
  fromString fromNamed (after (fromString fromNamed st s)) s
  = ([], Ok color, after (fromString fromNamed st s)).
Proof.
  intros Hs Hok.
  destruct (JsObject.hasOwnProperty (cache st) s) as [[cached|]|e] eqn:Hown.
  - rewrite (fromString_hit _ _ _ _ Hown) in *. cbn [outcome after fst snd] in *.
    injection Hok as <-. now apply fromString_hit.
  - rewrite (fromString_miss _ _ _ Hown) in *.
    apply hasOwnProperty_Ok in Hown. destruct Hown as [Hmethod _].
    destruct (fromStringInternal_ fromNamed s) as [called [c|e]];
      cbn [outcome after fst snd] in *; [|discriminate].
    injection Hok as <-. apply fromString_hit. cbn [cache].
    apply hasOwnProperty_Ok. split; [|apply get_set_same].
    rewrite get_set_other by assumption. now apply made_room_get_None.
  - rewrite (fromString_throw _ _ _ _ Hown) in Hok. discriminate.
Qed.

(** [#f00], looked up twice from the empty cache. *)
Lemma repeated_lookup_is_a_hit_witness :
  fromString (fun _ => "") (after (fromString (fun _ => "") empty "#f00")) "#f00"
  = ([], Ok [255; 0; 0; 1]%float, after (fromString (fun _ => "") empty "#f00")).
Proof.
  assert (H1 : "#f00" <> "hasOwnProperty") by discriminate.
  assert (H2 : outcome (fromString (fun _ => "") empty "#f00") = Ok [255; 0; 0; 1]%float)
    by (vm_compute; reflexivity).
  exact (repeated_lookup_is_a_hit (fun _ => "") empty "#f00" _ H1 H2).
Defined.

(** ** A cache that holds the key [hasOwnProperty] *)

Lemma shadowed_lookup (fromNamed : string -> string) (st : State) (s : string) :
  JsObject.get (cache st) "hasOwnProperty" <> None ->
  fromString fromNamed st s = ([], Throw TypeError, st).
Proof.
  intros H. apply fromString_throw. now apply hasOwnProperty_Throw.
Qed.

Lemma shadowed_lookups (fromNamed : string -> string) (st : State) (ss : list string) :
  JsObject.get (cache st) "hasOwnProperty" <> None ->
  lookups fromNamed st ss = st.
Proof.
  intros H. induction ss as [|s ss IH]; [reflexivity|].
  cbn [lookups]. now rewrite shadowed_lookup.
Qed.

(** X17: once a lookup of the string [hasOwnProperty] has returned a
    colour, every later lookup, of whatever string, throws a TypeError and
    leaves the cache as it is; the cache does not recover. *)
Theorem lookup_of_hasOwnProperty_breaks_the_cache (fromNamed : string -> string)
    (st : State) (color : Color) (ss : list string) (s : string) :
  outcome (fromString fromNamed st "hasOwnProperty") = Ok color ->
  let broken := after (fromString fromNamed st "hasOwnProperty") in
  lookups fromNamed broken ss = broken
  /\ fromString fromNamed (lookups fromNamed broken ss) s = ([], Throw TypeError, broken).
Proof.
  intros Hok broken.
  assert (Hkey : JsObject.get (cache broken) "hasOwnProperty" <> None).
  { subst broken.
    destruct (JsObject.hasOwnProperty (cache st) "hasOwnProperty") as [[cached|]|e] eqn:Hown.
    - apply hasOwnProperty_Ok in Hown. destruct Hown as [Hnone Hsome]. congruence.
    - rewrite (fromString_miss _ _ _ Hown) in *.
      destruct (fromStringInternal_ fromNamed "hasOwnProperty") as [called [c|e]];
        cbn [outcome after fst snd cache] in *; [|discriminate].
      now rewrite get_set_same.
    - rewrite (fromString_throw _ _ _ _ Hown) in Hok. discriminate. }
  rewrite (shadowed_lookups _ _ _ Hkey). split; [reflexivity|].
  now apply shadowed_lookup.
Qed.

(** The name [hasOwnProperty] in a document that computes [rgb(0, 0, 0)]
    for it, and [#f00] two lookups later. *)
Lemma lookup_of_hasOwnProperty_breaks_the_cache_witness :
  let broken := after (fromString (fun _ => "rgb(0, 0, 0)") empty "hasOwnProperty") in
  lookups (fun _ => "rgb(0, 0, 0)") broken ["#abc"; "red"] = broken
  /\ fromString (fun _ => "rgb(0, 0, 0)") (lookups (fun _ => "rgb(0, 0, 0)") broken ["#abc"; "red"])
                "#f00"
     = ([], Throw TypeError, broken).
Proof.
  assert (H : outcome (fromString (fun _ => "rgb(0, 0, 0)") empty "hasOwnProperty")
              = Ok [0; 0; 0; 1]%float) by (vm_compute; reflexivity).
  exact (lookup_of_hasOwnProperty_breaks_the_cache (fun _ => "rgb(0, 0, 0)") empty _
           ["#abc"; "red"] "#f00" H).
Defined.

(** ** The two entry points *)

(** X18: through the two entry points, a colour that the parser returned
    comes back from its string: [asArray] of [asString] of the array is the
    array, in every state of the cache that lookups lead to and that does
    not hold the key [hasOwnProperty]. *)
Theorem asArray_asString_round_trip (fromNamed : string -> string)
    (ss : list string) (s : string) (c : Color) :
  let st := lookups fromNamed empty ss in
  JsObject.get (cache st) "hasOwnProperty" = None ->
  snd (fromStringInternal_ fromNamed s) = Ok c ->
  outcome (asArray fromNamed st (OfString (asString (OfArray c)))) = Ok c.
Proof.
  intros st Hown Hparse. cbn [asArray asString].
  rewrite lookup_agrees_with_parser
    by (assumption || apply lookups_consistent, consistent_empty).
  apply parsed_in_gamut in Hparse.
  now rewrite in_gamut_prints_back.
Qed.

(** The colour of [#f00a], after two lookups. *)
Lemma asArray_asString_round_trip_witness :
  outcome (asArray (fun _ => "") (lookups (fun _ => "") empty ["#abc"; "red"])
             (OfString (asString (OfArray [255; 0; 0; 170 / 255]%float))))
  = Ok [255; 0; 0; 170 / 255]%float.
Proof.
  assert (H1 : JsObject.get (cache (lookups (fun _ => "") empty ["#abc"; "red"]))
                 "hasOwnProperty" = None) by (vm_compute; reflexivity).
  assert (H2 : snd (fromStringInternal_ (fun _ => "") "#f00a") = Ok [255; 0; 0; 170 / 255]%float)
    by (vm_compute; reflexivity).
  exact (asArray_asString_round_trip (fun _ => "") ["#abc"; "red"] "#f00a" _ H1 H2).
Defined.

(** X19: [asArray] returns an array as it is, without a look at the cache;
    for a string, in every state that lookups lead to, it returns a colour
    within its ranges, or throws assertion 14 or the TypeError of a cache
    that holds the key [hasOwnProperty]. *)
Theorem asArray_results (fromNamed : string -> string) (ss : list string)
    (input : ColorLike) :
  let st := lookups fromNamed empty ss in
  match input with
  | OfArray c => asArray fromNamed st input = ([], Ok c, st)
  | OfString s =>
      match outcome (asArray fromNamed st input) with
      | Ok c => in_gamut c
      | Throw e => e = AssertionError 14 \/ e = TypeError
      end
  end.
Proof.
  intros st. destruct input as [s|c]; [|reflexivity].
  cbn [asArray].
  assert (Hst : consistent fromNamed st) by apply lookups_consistent, consistent_empty.
  destruct (JsObject.get (cache st) "hasOwnProperty") as [shadow|] eqn:Hown.
  - rewrite shadowed_lookup by congruence. cbn [outcome fst snd]. now right.
  - rewrite lookup_agrees_with_parser by assumption.
    destruct (snd (fromStringInternal_ fromNamed s)) as [c|e] eqn:E.
    + eapply parsed_in_gamut, E.
    + left. unfold fromStringInternal_ in E.
      destruct (RegExp.exec NAMED_COLOR_RE_ s); cbn [snd] in E;
        eapply fromResolved_failure, E.
Qed.
